(** * HU.ipynb: CT slice viewer and Hounsfield-unit histogram

    A shallow embedding of the notebook cell of [HU.ipynb] and the
    properties of its pipeline

      upload -> save -> unzip -> walk -> read -> filter CT -> sort
             -> rescale -> stack -> show middle slice -> histogram.

    The cell is a straight-line script over four libraries (streamlit,
    zipfile/os, pydicom, numpy/matplotlib).  The script itself is embedded
    line by line; what the libraries do is modelled as follows.

    - Files hold opaque [blob]s.  [pydicom.dcmread] and [zipfile.ZipFile]
      are parameters that parse a blob or raise.
    - The temporary directory is a tree of named entries; paths are lists
      of components relative to [tmpdirname], so [os.path.join root f] is
      [root ++ [f]].
    - Exceptions are values of [exn]; the streamlit calls are recorded in
      a trace of [ui_event]s that is threaded through the script.
    - numpy's float arithmetic is an interface ([FloatOps]); IEEE binary32
      from the standard library's [SpecFloat] is one instance of it. *)

From Stdlib Require Import ZArith QArith Qround Qpower Qfield Lqa.
From Stdlib Require Import SpecFloat Ascii String.
From stdpp Require Import base option list strings pretty sorting.

Local Open Scope string_scope.
Local Open Scope list_scope.
Set Warnings "-register-all".

(** ** Python strings (ASCII) *)

(** File names and the Modality value are strings of 8-bit characters, and
    [lower] and [upper] change the case of the ASCII letters only.  (No
    character outside ASCII has [d], [c], [m] or [.] as its lower case, or
    [C] or [T] as its upper case, so the two tests of the script see the
    same on Unicode strings.) *)

Module PyStr.

(** [c.lower()] for one character: [A-Z] is shifted to [a-z]. *)
Definition lower_ascii (c : ascii) : ascii :=
  let n := nat_of_ascii c in
  if (65 <=? n)%nat && (n <=? 90)%nat then ascii_of_nat (n + 32) else c.

(** [c.upper()] for one character: [a-z] is shifted to [A-Z]. *)
Definition upper_ascii (c : ascii) : ascii :=
  let n := nat_of_ascii c in
  if (97 <=? n)%nat && (n <=? 122)%nat then ascii_of_nat (n - 32) else c.

(** [str.lower] *)
Fixpoint lower (s : string) : string :=
  match s with
  | EmptyString => EmptyString
  | String c s' => String (lower_ascii c) (lower s')
  end.

(** [str.upper] *)
Fixpoint upper (s : string) : string :=
  match s with
  | EmptyString => EmptyString
  | String c s' => String (upper_ascii c) (upper s')
  end.

(** [s.endswith(suffix)]: [s] is [suffix], or what follows its first
    character ends with [suffix]. *)
Fixpoint endswith (s suffix : string) : bool :=
  if String.eqb s suffix then true
  else match s with
       | EmptyString => false
       | String _ s' => endswith s' suffix
       end.

(** Two characters that differ at most in case. *)
Definition same_letter (a b : ascii) : Prop := lower_ascii a = lower_ascii b.

(** Two strings of the same length that differ at most in case. *)
Fixpoint eq_nocase (s t : string) : Prop :=
  match s, t with
  | EmptyString, EmptyString => True
  | String a s', String b t' => same_letter a b ∧ eq_nocase s' t'
  | _, _ => False
  end.

End PyStr.

(** ** Exceptions and the error monad *)

Inductive exn : Type :=
  | BadZipFile                      (* zipfile.ZipFile on a non-archive *)
  | OSError                         (* extraction or open() failed *)
  | InvalidDicomError               (* pydicom.dcmread on a non-DICOM file *)
  | AttributeError (name : string)  (* a tag the data set does not have *)
  | TypeError                       (* int() of a value that is no number *)
  | ValueError (msg : string)       (* np.stack *)
  | IndexError.                     (* volume[i] out of range *)

Inductive result (A : Type) : Type :=
  | Ok (a : A)
  | Raise (e : exn).
Arguments Ok {A} a.
Arguments Raise {A} e.

#[global] Instance exn_eq_dec : EqDecision exn.
Proof. solve_decision. Defined.

#[global] Instance result_eq_dec {A : Type} `{EqDecision A} :
  EqDecision (result A).
Proof. solve_decision. Defined.

#[global] Instance result_ret : MRet result := λ A a, Ok a.
#[global] Instance result_bind : MBind result := λ A B f m,
  match m with
  | Ok a => f a
  | Raise e => Raise e
  end.

(** A [for] loop whose body may raise: the first exception ends it. *)
Fixpoint for_each {A S : Type} (body : S → A → result S) (s : S) (l : list A)
  : result S :=
  match l with
  | [] => Ok s
  | a :: l' => s' ← body s a; for_each body s' l'
  end.

(** A comprehension whose element expression may raise. *)
Fixpoint map_each {A B : Type} (f : A → result B) (l : list A)
  : result (list B) :=
  match l with
  | [] => Ok []
  | a :: l' => b ← f a; bs ← map_each f l'; Ok (b :: bs)
  end.

(** ** numpy arrays and float arithmetic *)

(** The float operations the script applies to array elements. *)
Class FloatOps (F : Type) : Type := {
  (** [astype(np.float32)] on one integer pixel *)
  astype_float32 : Z → F;
  (** a Python [int] literal used as a scalar operand *)
  of_int : Z → F;
  (** elementwise [*] and [+] *)
  fmul : F → F → F;
  fadd : F → F → F;
  (** the rational a finite float denotes; [None] for nan and the
      infinities *)
  fvalue : F → option Q;
}.

(** A two-dimensional array: its shape and its elements in row-major
    order. *)
Record ndarray (A : Type) : Type := mk_ndarray {
  shape : nat * nat;
  data : list A;
}.
Arguments mk_ndarray {A} shape data.
Arguments shape {A} n.
Arguments data {A} n.

Definition arr_map {A B : Type} (f : A → B) (a : ndarray A) : ndarray B :=
  {| shape := shape a; data := f <$> data a |}.

Definition shape_eqb (s t : nat * nat) : bool :=
  (s.1 =? t.1)%nat && (s.2 =? t.2)%nat.

(** ** IEEE binary32 as an instance of [FloatOps] *)

(** The arithmetic of a float32 array with the Python integers 1 and 0
    of the defaults, which numpy keeps in 32 bits.  With a rescale tag
    that is present numpy may compute in 64 bits; what is proved for
    present tags is proved over the interface. *)

Module Binary32.

Definition prec : Z := 24.
Definition emax : Z := 128.

Definition of_Z (z : Z) : spec_float := binary_normalize prec emax z 0 false.

Definition value (x : spec_float) : option Q :=
  match x with
  | S754_zero _ => Some 0%Q
  | S754_finite s m e =>
      let q := (inject_Z (Z.pos m) * Qpower 2 e)%Q in
      Some (if s then Qopp q else q)
  | S754_infinity _ | S754_nan => None
  end.

(** The floats that integers convert to: +0, the infinities and the
    normal numbers. *)
Definition is_normal (x : spec_float) : Prop :=
  match x with
  | S754_zero s => s = false
  | S754_infinity _ => True
  | S754_nan => False
  | S754_finite _ m e => digits2_pos m = 24%positive ∧ (-149 ≤ e ≤ 104)%Z
  end.

#[global] Instance ops : FloatOps spec_float := {|
  astype_float32 := of_Z;
  of_int := of_Z;
  fmul := SFmul prec emax;
  fadd := SFadd prec emax;
  fvalue := value;
|}.

End Binary32.

(** ** The temporary directory *)

Definition path : Type := list string.

Section FileSystem.

(** What a file holds: the bytes as the parsers see them. *)
Variable blob : Type.

(** A directory entry is a file or a directory with named entries, in
    the order in which the directory lists them. *)
Inductive node : Type :=
  | File (b : blob)
  | Dir (entries : list (string * node)).

Definition entries : Type := list (string * node).

Fixpoint get_entry (name : string) (es : entries) : option node :=
  match es with
  | [] => None
  | (k, n) :: es' => if String.eqb k name then Some n else get_entry name es'
  end.

(** Create or replace the entry [name]. *)
Fixpoint put_entry (name : string) (n : node) (es : entries) : entries :=
  match es with
  | [] => [(name, n)]
  | (k, v) :: es' =>
      if String.eqb k name then (name, n) :: es'
      else (k, v) :: put_entry name n es'
  end.

(** [open(p, "wb").write(b)], creating the directories above [p] as
    [ZipFile.extract] does.  It fails where a directory is in the place
    of the file or a file in the place of a directory. *)
Fixpoint write_file (p : path) (b : blob) (es : entries) : result entries :=
  match p with
  | [] => Raise OSError
  | name :: rest =>
      match rest with
      | [] =>
          match get_entry name es with
          | Some (Dir _) => Raise OSError
          | _ => Ok (put_entry name (File b) es)
          end
      | _ :: _ =>
          match get_entry name es with
          | Some (File _) => Raise OSError
          | Some (Dir sub) =>
              sub' ← write_file rest b sub; Ok (put_entry name (Dir sub') es)
          | None =>
              sub' ← write_file rest b []; Ok (put_entry name (Dir sub') es)
          end
      end
  end.

(** [os.makedirs(p, exist_ok=True)] *)
Fixpoint make_dirs (p : path) (es : entries) : result entries :=
  match p with
  | [] => Ok es
  | name :: rest =>
      match get_entry name es with
      | Some (File _) => Raise OSError
      | Some (Dir sub) =>
          sub' ← make_dirs rest sub; Ok (put_entry name (Dir sub') es)
      | None =>
          sub' ← make_dirs rest []; Ok (put_entry name (Dir sub') es)
      end
  end.

(** [open(p, "rb").read()] *)
Fixpoint read_file (p : path) (es : entries) : result blob :=
  match p with
  | [] => Raise OSError
  | name :: rest =>
      match rest with
      | [] =>
          match get_entry name es with
          | Some (File b) => Ok b
          | _ => Raise OSError
          end
      | _ :: _ =>
          match get_entry name es with
          | Some (Dir sub) => read_file rest sub
          | _ => Raise OSError
          end
      end
  end.

Definition is_dir (e : string * node) : bool :=
  match e.2 with Dir _ => true | File _ => false end.

Definition dirnames (es : entries) : list string :=
  fst <$> List.filter is_dir es.

Definition filenames (es : entries) : list string :=
  fst <$> List.filter (λ e, negb (is_dir e)) es.

(** [os.walk(top)]: the triple of [top], then the walk of each of its
    sub-directories.  [os.walk] lists the names of a directory in the
    order of the file system; here that is the order in which the
    entries were created. *)
Fixpoint walk (root : path) (n : node)
  : list (path * list string * list string) :=
  match n with
  | File _ => []
  | Dir es =>
      (root, dirnames es, filenames es) ::
      (fix walk_entries (l : entries) :=
         match l with
         | [] => []
         | (name, sub) :: l' => walk (root ++ [name]) sub ++ walk_entries l'
         end) es
  end.

(** A member of a ZIP archive: a file with its bytes, or a directory. *)
Inductive member : Type :=
  | MFile (name : path) (b : blob)
  | MDir (name : path).

(** [ZipFile.extract] of one member into the directory. *)
Definition extract (es : entries) (m : member) : result entries :=
  match m with
  | MFile name b => write_file name b es
  | MDir name => make_dirs name es
  end.

(** [zip_ref.extractall(tmpdirname)] *)
Definition extractall (members : list member) (es : entries)
  : result entries :=
  for_each extract es members.

End FileSystem.

Arguments File {blob} b.
Arguments Dir {blob} entries.
Arguments MFile {blob} name b.
Arguments MDir {blob} name.
Arguments get_entry {blob} name es.
Arguments put_entry {blob} name n es.
Arguments write_file {blob} p b es.
Arguments make_dirs {blob} p es.
Arguments read_file {blob} p es.
Arguments dirnames {blob} es.
Arguments filenames {blob} es.
Arguments is_dir {blob} e.
Arguments walk {blob} root n.
Arguments extract {blob} es m.
Arguments extractall {blob} members es.

(** ** DICOM data sets *)

(** The tags the script consumes.  [None] is a tag the file does not
    have; reading it through attribute access raises [AttributeError],
    reading it through [getattr] with a default gives the default.
    An InstanceNumber that the file has is [Some v]: [v] is [Some n] for
    the integer string [n], and [None] for an element without a value,
    which pydicom reads as Python's [None].  [pixel_array] is the decoded
    PixelData, integers of the stored type. *)
Record Dataset (F : Type) : Type := mk_Dataset {
  Modality : option string;
  InstanceNumber : option (option Z);
  RescaleSlope : option F;
  RescaleIntercept : option F;
  pixel_array : option (ndarray Z);
}.
Arguments mk_Dataset {F}.
Arguments Modality {F} d.
Arguments InstanceNumber {F} d.
Arguments RescaleSlope {F} d.
Arguments RescaleIntercept {F} d.
Arguments pixel_array {F} d.

(** [ds.name] *)
Definition attr {A : Type} (name : string) (tag : option A) : result A :=
  match tag with
  | Some v => Ok v
  | None => Raise (AttributeError name)
  end.

(** [int(v)] for the value of an integer-string element *)
Definition py_int (v : option Z) : result Z :=
  match v with
  | Some n => Ok n
  | None => Raise TypeError
  end.

(** [getattr(ds, name, default)] *)
Definition getattr {A : Type} (tag : option A) (default : A) : A :=
  match tag with
  | Some v => v
  | None => default
  end.

(** ** The built-in [sorted] with a key *)

Section Sorted.

Context {A : Type}.

(** Insert before the first element whose key is not smaller: an element
    stays in front of the later elements that have its key. *)
Fixpoint insert_by_key (x : Z * A) (l : list (Z * A)) : list (Z * A) :=
  match l with
  | [] => [x]
  | y :: l' =>
      if (x.1 <=? y.1)%Z then x :: y :: l' else y :: insert_by_key x l'
  end.

Fixpoint sort_by_key (l : list (Z * A)) : list (Z * A) :=
  match l with
  | [] => []
  | x :: l' => insert_by_key x (sort_by_key l')
  end.

(** [sorted(l, key=key)]: the keys are computed first, once for each
    element, and any exception of [key] is raised before the list is
    ordered; then the elements are ordered by key, ascending, elements
    of equal key in the order they had. *)
Definition sorted (key : A → result Z) (l : list A) : result (list A) :=
  keys ← map_each key l;
  Ok (snd <$> sort_by_key (zip keys l)).

(** The order of the decorated elements: ascending keys. *)
Definition key_le (x y : Z * A) : Prop := (x.1 ≤ y.1)%Z.

(** Every decorated element carries the key of its element. *)
Definition keyed (key : A → result Z) (sp : list (Z * A)) : Prop :=
  Forall (λ y, key y.2 = Ok y.1) sp.

(** An element with the key it has when [key] returns one. *)
Definition decorate (key : A → result Z) (a : A) : Z * A :=
  (match key a with Ok k => k | Raise _ => 0%Z end, a).

End Sorted.

(** ** numpy and matplotlib *)

(** [np.stack(arrays)]: a new first axis; the result is given as the
    sequence of its slices along that axis. *)
Definition np_stack {A : Type} (arrays : list (ndarray A))
  : result (list (ndarray A)) :=
  match arrays with
  | [] => Raise (ValueError "need at least one array to stack")
  | a :: rest =>
      if forallb (λ b, shape_eqb (shape b) (shape a)) rest then Ok arrays
      else Raise (ValueError "all input arrays must have the same shape")
  end.

(** [volume[i]] for [0 <= i] *)
Definition getitem {A : Type} (volume : list A) (i : nat) : result A :=
  match volume !! i with
  | Some a => Ok a
  | None => Raise IndexError
  end.

(** [volume.ravel()] *)
Definition ravel {A : Type} (volume : list (ndarray A)) : list A :=
  concat (data <$> volume).

(** [np.bincount(indices, minlength=n)] for indices below [n] *)
Definition bincount (indices : list nat) (n : nat) : list nat :=
  (λ i, length (List.filter (Nat.eqb i) indices)) <$> seq 0 n.

Section Histogram.

Context {F : Type} `{FloatOps F}.

(** The bin of one value in a histogram of [bins] equal bins over
    [[lo, hi]]: none outside the range (and for nan), the last bin for
    [hi] itself. *)
Definition bin_index (bins : nat) (lo hi : Z) (x : F) : option nat :=
  match fvalue x with
  | None => None
  | Some q =>
      if Qle_bool (inject_Z lo) q && Qle_bool q (inject_Z hi) then
        let i := Z.to_nat (Qfloor ((q - inject_Z lo) * inject_Z (Z.of_nat bins)
                                   / inject_Z (hi - lo))) in
        Some (if (i =? bins)%nat then bins - 1 else i)
      else None
  end.

(** The counts of [np.histogram(x, bins=bins, range=(lo, hi))], which
    [Axes.hist] draws. *)
Definition histogram (x : list F) (bins : nat) (lo hi : Z) : list nat :=
  bincount (omap (bin_index bins lo hi) x) bins.

(** The left edge of bin [i], and the right edge of bin [i - 1]:
    [np.linspace(lo, hi, bins + 1)[i]]. *)
Definition bin_edge (bins : nat) (lo hi : Z) (i : nat) : Q :=
  (inject_Z lo
   + inject_Z (Z.of_nat i) * (inject_Z (hi - lo) / inject_Z (Z.of_nat bins)))%Q.

(** A value within [[lo, hi]]. *)
Definition in_range (lo hi : Z) (x : F) : bool :=
  match fvalue x with
  | Some q => Qle_bool (inject_Z lo) q && Qle_bool q (inject_Z hi)
  | None => false
  end.

(** A value within bin [i]: between its edges, the right edge excluded
    except for the last bin. *)
Definition in_bin (bins : nat) (lo hi : Z) (i : nat) (x : F) : bool :=
  match fvalue x with
  | Some q =>
      Qle_bool (bin_edge bins lo hi i) q &&
      (if (S i =? bins)%nat then Qle_bool q (bin_edge bins lo hi (S i))
       else negb (Qle_bool (bin_edge bins lo hi (S i)) q))
  | None => false
  end.

End Histogram.

(** ** streamlit *)

Inductive figure (F : Type) : Type :=
  | Imshow (img : ndarray F) (cmap : string) (vmin vmax : Z)
  | Hist (counts : list nat) (bins : nat) (range : Z * Z).
Arguments Imshow {F} img cmap vmin vmax.
Arguments Hist {F} counts bins range.

Inductive ui_event (F : Type) : Type :=
  | St_title (text : string)
  | St_error (text : string)
  | St_write (text : string)
  | St_pyplot (fig : figure F).
Arguments St_title {F} text.
Arguments St_error {F} text.
Arguments St_write {F} text.
Arguments St_pyplot {F} fig.

(** A script step: it appends to the page what it shows and returns a
    value or raises. *)
Definition ui (F A : Type) : Type :=
  list (ui_event F) → list (ui_event F) * result A.

Definition ui_ret {F A : Type} (a : A) : ui F A := λ page, (page, Ok a).

Definition ui_bind {F A B : Type} (m : ui F A) (f : A → ui F B) : ui F B :=
  λ page,
    match m page with
    | (page', Ok a) => f a page'
    | (page', Raise e) => (page', Raise e)
    end.

Definition show {F : Type} (e : ui_event F) : ui F unit :=
  λ page, (page ++ [e], Ok tt).

Definition lift {F A : Type} (r : result A) : ui F A := λ page, (page, r).

Declare Scope ui_scope.
Delimit Scope ui_scope with ui.
Notation "x <- m ;; k" := (ui_bind m (λ x, k))
  (at level 100, m at next level, right associativity) : ui_scope.
Notation "m ;; k" := (ui_bind m (λ _, k))
  (at level 100, right associativity) : ui_scope.

(** ** The script *)

Section Script.

Context {F : Type} `{FloatOps F}.

(** The bytes of a file, and the two parsers of the libraries. *)
Context {blob : Type}.
(** [pydicom.dcmread] on the bytes of a file *)
Variable dcmparse : blob → result (Dataset F).
(** [zipfile.ZipFile(...)] on the bytes of a file: the archive's members
    in archive order *)
Variable zip_members : blob → result (list (member blob)).

Definition zip_path : path := ["uploaded.zip"].

(** Lines 52-58: save the upload into the temporary directory, open it
    as an archive and extract the archive into the same directory.  The
    members are those the saved file has when it is opened.  [extractall]
    reads the bytes of a member from the saved file when its turn comes:
    for an archive with a top-level file member named "uploaded.zip",
    which is written over the file that is being read, the members after
    it are not what this definition takes them to be. *)
Definition save_and_extract (uploaded_file : blob) : result (entries blob) :=
  tmp ← write_file zip_path uploaded_file [];
  saved ← read_file zip_path tmp;
  members ← zip_members saved;
  extractall members tmp.

(** [pydicom.dcmread(p)] *)
Definition dcmread (tmp : entries blob) (p : path) : result (Dataset F) :=
  b ← read_file p tmp; dcmparse b.

Definition is_dcm (filename : string) : bool :=
  PyStr.endswith (PyStr.lower filename) ".dcm".

Definition is_CT (modality : string) : bool :=
  String.eqb (PyStr.upper modality) "CT".

(** The state of the discovery loop: the paths given to [dcmread] so
    far, and [ct_slices]. *)
Definition found : Type := list path * list (Dataset F).

(** Lines 65-67: read one file and keep it when it is a CT slice. *)
Definition read_and_keep (tmp : entries blob) (st : found) (p : path)
  : result found :=
  ds ← dcmread tmp p;
  modality ← attr "Modality" (Modality ds);
  if is_CT modality
  then Ok (st.1 ++ [p], st.2 ++ [ds])
  else Ok (st.1 ++ [p], st.2).

(** Lines 64-67, the body of the inner loop. *)
Definition scan_file (tmp : entries blob) (root : path) (st : found)
    (filename : string) : result found :=
  if is_dcm filename then read_and_keep tmp st (root ++ [filename])
  else Ok st.

(** Line 63, the inner loop. *)
Definition scan_dir (tmp : entries blob) (st : found)
    (triple : path * list string * list string) : result found :=
  for_each (scan_file tmp triple.1.1) st triple.2.

(** Lines 61-67. *)
Definition find_ct_slices (tmp : entries blob) : result found :=
  for_each (scan_dir tmp) ([], []) (walk [] (Dir tmp)).

(** The files of the walk whose names pass the filter of line 64, as
    the paths line 65 gives to [dcmread]. *)
Definition dcm_paths_of (listing : list (path * list string * list string))
  : list path :=
  triple ← listing; (λ f, triple.1.1 ++ [f]) <$> List.filter is_dcm triple.2.

Definition dcm_paths (tmp : entries blob) : list path :=
  dcm_paths_of (walk [] (Dir tmp)).

(** The test of line 66 on a data set that has the tag. *)
Definition keeps (ds : Dataset F) : bool :=
  match Modality ds with
  | Some modality => is_CT modality
  | None => false
  end.

(** Line 73, the sort key. *)
Definition instance_key (x : Dataset F) : result Z :=
  v ← attr "InstanceNumber" (InstanceNumber x); py_int v.

(** Lines 78-80. *)
Definition hu_slice (s : Dataset F) : result (ndarray F) :=
  let slope := getattr (RescaleSlope s) (of_int 1) in
  let intercept := getattr (RescaleIntercept s) (of_int 0) in
  pixels ← attr "PixelData" (pixel_array s);
  Ok (arr_map (λ v, fadd v intercept)
        (arr_map (λ v, fmul v slope)
           (arr_map astype_float32 pixels))).

(** All slices have pixel data of one shape. *)
Definition one_shape (ct_slices : list (Dataset F)) : Prop :=
  ∀ s t p q, s ∈ ct_slices → t ∈ ct_slices →
    pixel_array s = Some p → pixel_array t = Some q → shape p = shape q.

(** Lines 73-83: order, convert and stack. *)
Definition assemble (ct_slices : list (Dataset F))
  : result (list (ndarray F)) :=
  ct_slices ← sorted instance_key ct_slices;
  pixel_arrays ← map_each hu_slice ct_slices;
  np_stack pixel_arrays.

Definition no_ct_message : string :=
  "No CT DICOM slices found in uploaded ZIP.".

Local Open Scope ui_scope.

(** Lines 72-100, the [else] branch. *)
Definition display (ct_slices : list (Dataset F)) : ui F unit :=
  volume <- lift (assemble ct_slices) ;;
  let mid_slice_idx := length volume / 2 in
  show (St_write ("Displaying middle slice #" +:+ pretty mid_slice_idx)) ;;
  img <- lift (getitem volume mid_slice_idx) ;;
  show (St_pyplot (Imshow img "gray" (-1000) 400)) ;;
  show (St_pyplot
          (Hist (histogram (ravel volume) 200 (-1000) 2000)
                200 (-1000, 2000)%Z)).

(** Lines 50-100, the body of [if uploaded_file]. *)
Definition process (uploaded_file : blob) : ui F unit :=
  tmp <- lift (save_and_extract uploaded_file) ;;
  st <- lift (find_ct_slices tmp) ;;
  let ct_slices := st.2 in
  if (length ct_slices =? 0)%nat then show (St_error no_ct_message)
  else display ct_slices.

(** The cell, run once on what the upload control holds. *)
Definition script (uploaded_file : option blob) : ui F unit :=
  show (St_title "CT Slice Viewer + HU Histogram") ;;
  match uploaded_file with
  | Some f => process f
  | None => ui_ret tt
  end.

(** The page and the outcome of one run. *)
Definition run (uploaded_file : option blob)
  : list (ui_event F) * result unit :=
  script uploaded_file [].

End Script.

Arguments found F : clear implicits.

(** ** A small archive format for concrete runs *)

Module Demo.

(** The bytes of a toy file: what [dcmread] and [ZipFile] make of them.
    A file can be both a DICOM file and an archive. *)
Inductive toy : Type :=
  | Toy (as_dicom : option (Dataset spec_float))
        (as_zip : option (list (member toy))).

Definition toy_dcmparse (b : toy) : result (Dataset spec_float) :=
  match b with
  | Toy (Some ds) _ => Ok ds
  | Toy None _ => Raise InvalidDicomError
  end.

Definition toy_members (b : toy) : result (list (member toy)) :=
  match b with
  | Toy _ (Some ms) => Ok ms
  | Toy _ None => Raise BadZipFile
  end.

Definition f32 (z : Z) : spec_float := Binary32.of_Z z.

(** A 1 x 2 slice. *)
Definition slice (modality : string) (number : Z)
    (slope intercept : option Z) (p0 p1 : Z) : Dataset spec_float :=
  {| Modality := Some modality;
     InstanceNumber := Some (Some number);
     RescaleSlope := f32 <$> slope;
     RescaleIntercept := f32 <$> intercept;
     pixel_array := Some (mk_ndarray (1, 2)%nat [p0; p1]) |}.

Definition dcm (ds : Dataset spec_float) : toy := Toy (Some ds) None.

Definition ct1 := slice "CT" 1 (Some 2%Z) (Some (-1024)%Z) 10 11.
Definition ct2 := slice "ct" 2 (Some 2%Z) (Some (-1024)%Z) 20 5000.
Definition ct3 := slice "CT" 3 (Some 2%Z) (Some (-1024)%Z) 30 31.
Definition raw := slice "CT" 7 None None 100 (-7).
Definition mr := slice "MR" 0 None None 1 2.

(** Three CT slices numbered 3, 1, 2 in discovery order 1, 3, 2, one MR
    slice, a text file and an empty directory. *)
Definition series : toy :=
  Toy None (Some [MFile ["a"; "s3.DCM"] (dcm ct3);
                  MFile ["s1.dcm"] (dcm ct1);
                  MFile ["a"; "b"; "s2.dcm"] (dcm ct2);
                  MFile ["m.dcm"] (dcm mr);
                  MDir ["empty"];
                  MFile ["readme.txt"] (Toy None None)]).

(** An archive that is itself a readable CT DICOM file and holds one MR
    slice. *)
Definition polyglot : toy :=
  Toy (Some ct1) (Some [MFile ["m.dcm"] (dcm mr)]).

Definition only_mr : toy :=
  Toy None (Some [MFile ["m.dcm"] (dcm mr); MFile ["notes.txt"] (Toy None None)]).

Definition run_toy : option toy → list (ui_event spec_float) * result unit :=
  run toy_dcmparse toy_members.

(** The value of a computation that succeeds. *)
Definition value_of {A : Type} (default : A) (r : result A) : A :=
  match r with
  | Ok a => a
  | Raise _ => default
  end.

(** The directory after [series] is saved and extracted: "uploaded.zip",
    "s1.dcm", "m.dcm", "readme.txt", "a/s3.DCM", "a/b/s2.dcm", "empty/". *)
Definition series_tmp : entries toy :=
  value_of [] (save_and_extract toy_members series).

(** What discovery reads and keeps there: slices 1, 3, 2 in that order. *)
Definition series_reads : list path :=
  [["s1.dcm"]; ["m.dcm"]; ["a"; "s3.DCM"]; ["a"; "b"; "s2.dcm"]].
Definition kept : list (Dataset spec_float) := [ct1; ct3; ct2].
Definition in_order : list (Dataset spec_float) := [ct1; ct2; ct3].

(** The HU slices of [in_order] and the volume of [kept]. *)
Definition arrays : list (ndarray spec_float) :=
  value_of [] (map_each hu_slice in_order).
Definition volume : list (ndarray spec_float) :=
  value_of [] (assemble kept).

Definition only_mr_tmp : entries toy :=
  value_of [] (save_and_extract toy_members only_mr).
Definition polyglot_tmp : entries toy :=
  value_of [] (save_and_extract toy_members polyglot).

End Demo.

(** ** Notions used in the further properties *)

Section Notions.

Context {F : Type} {blob : Type}.

(** A slice numbered below [n], and one numbered at most [n]. *)
Definition number_lt (n : Z) (s : Dataset F) : bool :=
  match InstanceNumber s with
  | Some (Some m) => (m <? n)%Z
  | _ => false
  end.

Definition number_le (n : Z) (s : Dataset F) : bool :=
  match InstanceNumber s with
  | Some (Some m) => (m <=? n)%Z
  | _ => false
  end.

(** A member that extraction has to put below a directory named
    "uploaded.zip", or as a directory of that name. *)
Definition under_archive (m : member blob) : bool :=
  match m with
  | MFile (name :: _ :: _) _ => String.eqb name "uploaded.zip"
  | MFile _ _ => false
  | MDir (name :: _) => String.eqb name "uploaded.zip"
  | MDir [] => false
  end.

(** A member that extraction writes over the saved archive itself. *)
Definition over_archive (m : member blob) : bool :=
  match m with
  | MFile [name] _ => String.eqb name "uploaded.zip"
  | _ => false
  end.

(** A directory tree in which no directory has two entries of one
    name. *)
Fixpoint unique_names (n : node blob) : Prop :=
  match n with
  | File _ => True
  | Dir es =>
      NoDup (fst <$> es) ∧
      (fix all_unique (l : entries blob) : Prop :=
         match l with
         | [] => True
         | (_, sub) :: l' => unique_names sub ∧ all_unique l'
         end) es
  end.

End Notions.

(** "HU equals raw pixel value": every element of the converted slice
    is a number, the integer of the pixel it comes from. *)
Definition equals_raw {F : Type} `{FloatOps F}
    (hu : ndarray F) (pixels : ndarray Z) : Prop :=
  Forall2 (λ h P, ∃ q, fvalue h = Some q ∧ (q == inject_Z P)%Q)
    (data hu) (data pixels).

(** ** More concrete uploads *)

Module MoreDemo.
Import Demo.

(** A CT slice without InstanceNumber and one without pixel data. *)
Definition unnumbered : Dataset spec_float :=
  {| Modality := Some "CT";
     InstanceNumber := None;
     RescaleSlope := None;
     RescaleIntercept := None;
     pixel_array := None |}.

(** A CT slice whose InstanceNumber has no value. *)
Definition unvalued : Dataset spec_float :=
  {| Modality := Some "CT";
     InstanceNumber := Some None;
     RescaleSlope := None;
     RescaleIntercept := None;
     pixel_array := None |}.

Definition no_pixels : Dataset spec_float :=
  {| Modality := Some "CT";
     InstanceNumber := Some (Some 5%Z);
     RescaleSlope := None;
     RescaleIntercept := None;
     pixel_array := None |}.

(** A slice without rescale tags whose one pixel, of a 32-bit stored
    type, is 2^24 + 1. *)
Definition wide : Dataset spec_float :=
  {| Modality := Some "CT";
     InstanceNumber := Some (Some 1%Z);
     RescaleSlope := None;
     RescaleIntercept := None;
     pixel_array := Some (mk_ndarray (1, 1)%nat [16777217%Z]) |}.

(** An archive whose second .dcm file is not a DICOM file. *)
Definition broken : toy :=
  Toy None (Some [MFile ["a.dcm"] (dcm mr);
                  MFile ["b.dcm"] (Toy None None);
                  MFile ["c.dcm"] (dcm ct1)]).
Definition broken_tmp : entries toy :=
  value_of [] (save_and_extract toy_members broken).


(** An archive that writes "s.dcm" twice. *)
Definition twice : toy :=
  Toy None (Some ([MFile ["s.dcm"] (dcm mr)] ++ [MFile ["s.dcm"] (dcm ct1)])).
Definition twice_tmp : entries toy :=
  value_of [] (save_and_extract toy_members twice).

End MoreDemo.

(** * Properties *)

(** ** Strings *)

Module PyStrFacts.
Import PyStr.

Lemma endswith_cons (c : ascii) (s suffix : string) :
  endswith (String c s) suffix =
  if String.eqb (String c s) suffix then true else endswith s suffix.
Proof. reflexivity. Qed.

Lemma endswith_spec (s suffix : string) :
  endswith s suffix = true ↔ ∃ p, s = p +:+ suffix.
Proof.
  induction s as [|c s IH].
  - destruct suffix as [|d t]; simpl.
    + split; [by exists ""|done].
    + split; [done|]. intros [p Hp]. destruct p; simpl in Hp; discriminate.
  - rewrite endswith_cons.
    destruct (String.eqb_spec (String c s) suffix) as [->|Hne].
    + split; [by exists ""|done].
    + rewrite IH. split.
      * intros [p ->]. by exists (String c p).
      * intros [[|d p] Hp]; simpl in Hp; [by subst|].
        injection Hp as _ ->. by exists p.
Qed.

Lemma lower_app (s t : string) : lower (s +:+ t) = lower s +:+ lower t.
Proof.
  induction s as [|c s IH]; [done|].
  change (String (lower_ascii c) (lower (s +:+ t)) =
          String (lower_ascii c) (lower s +:+ lower t)).
  by rewrite IH.
Qed.

Lemma lower_split (f p q : string) :
  lower f = p +:+ q → ∃ f1 f2, f = f1 +:+ f2 ∧ lower f1 = p ∧ lower f2 = q.
Proof.
  revert f. induction p as [|c p IH]; intros f Hf; simpl in Hf.
  - by exists "", f.
  - destruct f as [|d f]; simpl in Hf; [done|].
    injection Hf as Hc Hf. destruct (IH _ Hf) as (f1 & f2 & -> & <- & <-).
    exists (String d f1), f2. simpl. by rewrite Hc.
Qed.

Lemma eq_nocase_lower (s t : string) : eq_nocase s t ↔ lower s = lower t.
Proof.
  revert t. induction s as [|a s IH]; intros [|b t]; simpl; try done.
  unfold same_letter. rewrite IH. split.
  - by intros [-> ->].
  - intros Heq. by injection Heq.
Qed.

End PyStrFacts.

(** ** Loops *)

Lemma for_each_app {A S : Type} (body : S → A → result S) (s : S)
    (l1 l2 : list A) :
  for_each body s (l1 ++ l2) = (s' ← for_each body s l1; for_each body s' l2).
Proof.
  revert s. induction l1 as [|a l1 IH]; intros s; simpl; [done|].
  destruct (body s a) as [s'|e]; simpl; [apply IH|done].
Qed.

Lemma map_each_Forall2 {A B : Type} (f : A → result B) (l : list A)
    (bs : list B) :
  map_each f l = Ok bs ↔ Forall2 (λ a b, f a = Ok b) l bs.
Proof.
  revert bs. induction l as [|a l IH]; intros bs; simpl.
  - split; [intros [= <-]; constructor|by inversion 1].
  - destruct (f a) as [b|e] eqn:Hfa; simpl.
    + destruct (map_each f l) as [bs'|e] eqn:Hl; simpl.
      * split.
        -- intros [= <-]. constructor; [done|]. by apply IH.
        -- inversion 1 as [|? b' ? bs'' Hb Hbs]; subst.
           apply IH in Hbs. congruence.
      * split; [done|]. inversion 1 as [|? b' ? bs'' Hb Hbs]; subst.
        by apply IH in Hbs.
    + split; [done|]. inversion 1; congruence.
Qed.

Lemma map_each_length {A B : Type} (f : A → result B) (l : list A)
    (bs : list B) :
  map_each f l = Ok bs → length bs = length l.
Proof.
  intros Hl. apply map_each_Forall2 in Hl. symmetry.
  by eapply Forall2_length.
Qed.

Lemma map_each_Permutation {A B : Type} (f : A → result B) (l l' : list A)
    (bs : list B) :
  l ≡ₚ l' → map_each f l = Ok bs →
  ∃ bs', map_each f l' = Ok bs' ∧ bs ≡ₚ bs'.
Proof.
  intros Hp. revert bs.
  induction Hp as [|a l l' Hp IH|a a' l|l l' l'' Hp1 IH1 Hp2 IH2];
    intros bs Hbs.
  - simpl in *. by exists bs.
  - simpl in *. destruct (f a) as [b|]; simpl in *; [|done].
    destruct (map_each f l) as [bs0|]; simpl in *; [|done].
    injection Hbs as <-. destruct (IH _ eq_refl) as (bs' & -> & Hbs').
    exists (b :: bs'). simpl. split; [done|by constructor].
  - simpl in *. destruct (f a') as [b'|]; simpl in *; [|done].
    destruct (f a) as [b|]; simpl in *; [|done].
    destruct (map_each f l) as [bs0|]; simpl in *; [|done].
    injection Hbs as <-. exists (b :: b' :: bs0). split; [done|constructor].
  - destruct (IH1 _ Hbs) as (bs1 & Hbs1 & Hp1').
    destruct (IH2 _ Hbs1) as (bs2 & Hbs2 & Hp2').
    exists bs2. split; [done|by etrans].
Qed.

(** ** The stable sort *)

Section SortFacts.

Context {A : Type}.
Implicit Types (x y : Z * A) (l : list (Z * A)) (k : Z).

Lemma insert_by_key_Permutation x l : insert_by_key x l ≡ₚ x :: l.
Proof.
  induction l as [|y l IH]; simpl; [done|].
  destruct (x.1 <=? y.1)%Z; [done|].
  rewrite IH. apply Permutation_swap.
Qed.

Lemma sort_by_key_Permutation l : sort_by_key l ≡ₚ l.
Proof.
  induction l as [|x l IH]; simpl; [done|].
  by rewrite insert_by_key_Permutation, IH.
Qed.

Lemma insert_by_key_sorted x l :
  StronglySorted key_le l → StronglySorted key_le (insert_by_key x l).
Proof.
  induction 1 as [|y l Hl IH Hy]; simpl.
  - repeat constructor.
  - destruct (Z.leb_spec x.1 y.1) as [Hle|Hlt].
    + constructor; [by constructor|].
      constructor; [done|].
      eapply Forall_impl; [done|]. unfold key_le. intros z ?. lia.
    + constructor; [done|].
      rewrite insert_by_key_Permutation. constructor; [|done].
      unfold key_le. lia.
Qed.

Lemma sort_by_key_sorted l : StronglySorted key_le (sort_by_key l).
Proof.
  induction l as [|x l IH]; simpl; [constructor|].
  by apply insert_by_key_sorted.
Qed.

(** Insertion goes past strictly smaller keys only, so it keeps the
    order of the elements of each key. *)
Lemma insert_by_key_filter k x l :
  filter (λ y, y.1 = k) (insert_by_key x l) = filter (λ y, y.1 = k) (x :: l).
Proof.
  induction l as [|y l IH]; simpl; [done|].
  destruct (Z.leb_spec x.1 y.1) as [Hle|Hlt]; [done|].
  rewrite filter_cons, IH, !filter_cons.
  repeat case_decide; try done. lia.
Qed.

Lemma sort_by_key_stable k l :
  filter (λ y, y.1 = k) (sort_by_key l) = filter (λ y, y.1 = k) l.
Proof.
  induction l as [|x l IH]; simpl; [done|].
  by rewrite insert_by_key_filter, !filter_cons, IH.
Qed.

(** A list is determined by its elements, ascending keys and the order
    within each key. *)
Lemma stable_sorted_unique l1 l2 :
  StronglySorted key_le l1 → StronglySorted key_le l2 → l1 ≡ₚ l2 →
  (∀ k, filter (λ y, y.1 = k) l1 = filter (λ y, y.1 = k) l2) →
  l1 = l2.
Proof.
  intros Hs1. revert l2.
  induction Hs1 as [|x l1 Hs1 IH Hx]; intros l2 Hs2 Hp Hf.
  - by apply Permutation_nil_l in Hp.
  - destruct Hs2 as [|y l2 Hs2 Hy].
    { by apply Permutation_nil_r in Hp. }
    assert (x.1 = y.1) as Hk.
    { apply Z.le_antisymm.
      - assert (y ∈ x :: l1) as Hin by (rewrite Hp; left).
        apply elem_of_cons in Hin as [->|Hin]; [done|].
        rewrite Forall_forall in Hx. by apply Hx.
      - assert (x ∈ y :: l2) as Hin by (rewrite <-Hp; left).
        apply elem_of_cons in Hin as [->|Hin]; [done|].
        rewrite Forall_forall in Hy. by apply Hy. }
    assert (x = y) as ->.
    { specialize (Hf x.1). rewrite !filter_cons in Hf.
      rewrite decide_True in Hf by done.
      rewrite decide_True in Hf by done. by injection Hf. }
    f_equal. apply IH; [done|by apply (inj (cons y))|].
    intros k. specialize (Hf k). rewrite !filter_cons in Hf.
    case_decide; [by injection Hf|done].
Qed.

Context (key : A → result Z).

Lemma decorate_zip (l : list A) (keys : list Z) :
  map_each key l = Ok keys → zip keys l = decorate key <$> l.
Proof.
  revert keys. induction l as [|a l IH]; intros keys; simpl.
  - by intros [= <-].
  - unfold decorate at 1. destruct (key a) as [k|]; simpl; [|done].
    destruct (map_each key l) as [ks|]; simpl; [|done].
    intros [= <-]. simpl. by rewrite (IH ks).
Qed.

Lemma sorted_Ok (l out : list A) :
  sorted key l = Ok out ↔
  Forall (λ a, ∃ k, key a = Ok k) l ∧
  out = snd <$> sort_by_key (decorate key <$> l).
Proof.
  unfold sorted. destruct (map_each key l) as [keys|e] eqn:Hk; simpl.
  - rewrite (decorate_zip _ _ Hk). split.
    + intros [= <-]. split; [|done].
      apply map_each_Forall2 in Hk. clear -Hk.
      induction Hk; constructor; eauto.
    + by intros [_ ->].
  - split; [done|]. intros [Hall _]. exfalso. clear out.
    revert e Hk. induction Hall as [|a l [k Ha] _ IH]; intros e; simpl.
    + done.
    + rewrite Ha. simpl.
      destruct (map_each key l) as [ks|e'] eqn:Hl; simpl; [done|].
      intros _. by eapply IH.
Qed.

End SortFacts.

Lemma map_each_Raise {A B : Type} (f : A → result B) (l : list A) (e : exn) :
  map_each f l = Raise e → ∃ a, a ∈ l ∧ f a = Raise e.
Proof.
  induction l as [|a l IH]; simpl; [done|].
  destruct (f a) as [b|e'] eqn:Hfa; simpl.
  - destruct (map_each f l) as [bs|e']; simpl; [done|].
    intros [= ->]. destruct IH as (a' & Ha' & He); [done|].
    exists a'. split; [by right|done].
  - intros [= ->]. exists a. split; [by left|done].
Qed.

(** ** Discovery *)

Section DiscoveryFacts.

Context {F : Type} `{FloatOps F} {blob : Type}.
Context (dcmparse : blob → result (Dataset F)).
Implicit Types (tmp : entries blob) (st : found F) (p : path).

Lemma is_dcm_spec (filename : string) :
  is_dcm filename = true ↔
  ∃ stem ext, filename = stem +:+ ext ∧ PyStr.eq_nocase ext ".dcm".
Proof.
  unfold is_dcm. rewrite PyStrFacts.endswith_spec. split.
  - intros [p Hp]. apply PyStrFacts.lower_split in Hp
      as (stem & ext & -> & _ & Hext).
    exists stem, ext. split; [done|]. by apply PyStrFacts.eq_nocase_lower.
  - intros (stem & ext & -> & Hext). exists (PyStr.lower stem).
    apply PyStrFacts.eq_nocase_lower in Hext.
    by rewrite PyStrFacts.lower_app, Hext.
Qed.

Lemma is_CT_spec (modality : string) :
  is_CT modality = true ↔ PyStr.upper modality = "CT".
Proof. apply String.eqb_eq. Qed.

Lemma keeps_spec (ds : Dataset F) :
  keeps ds = true ↔ ∃ m, Modality ds = Some m ∧ PyStr.upper m = "CT".
Proof.
  unfold keeps. destruct (Modality ds) as [m|].
  - rewrite is_CT_spec. split; [by exists m|by intros (? & [= <-] & ?)].
  - split; [done|by intros (? & ? & _)].
Qed.

(** The inner loop reads the files that pass the name filter. *)
Lemma scan_dir_paths tmp st root dirs files :
  scan_dir dcmparse tmp st (root, dirs, files) =
  for_each (read_and_keep dcmparse tmp) st
    ((λ f, root ++ [f]) <$> List.filter is_dcm files).
Proof.
  unfold scan_dir. cbn [fst snd]. revert st.
  induction files as [|f files IH]; intros st; [done|].
  cbn [for_each List.filter].
  change (scan_file dcmparse tmp root st f)
    with (if is_dcm f then read_and_keep dcmparse tmp st (root ++ [f])
          else Ok st).
  destruct (is_dcm f).
  - rewrite fmap_cons. cbn [for_each].
    destruct (read_and_keep dcmparse tmp st (root ++ [f])) as [st'|e];
      [apply IH|done].
  - apply IH.
Qed.

(** The two loops read the files of [dcm_paths_of], in that order. *)
Lemma scan_paths tmp st listing :
  for_each (scan_dir dcmparse tmp) st listing =
  for_each (read_and_keep dcmparse tmp) st (dcm_paths_of listing).
Proof.
  revert st. induction listing as [|[[root dirs] files] listing IH];
    intros st; [done|].
  change (dcm_paths_of (((root, dirs, files)) :: listing))
    with (((λ f, root ++ [f]) <$> List.filter is_dcm files)
            ++ dcm_paths_of listing).
  rewrite for_each_app, <-(scan_dir_paths _ _ _ dirs). cbn [for_each].
  destruct (scan_dir dcmparse tmp st (root, dirs, files)); simpl; [|done].
  apply IH.
Qed.

Lemma read_and_keep_Ok tmp st st' p :
  read_and_keep dcmparse tmp st p = Ok st' ↔
  ∃ ds, (dcmread dcmparse tmp p = Ok ds ∧ is_Some (Modality ds)) ∧
        st' = (st.1 ++ [p], st.2 ++ List.filter keeps [ds]).
Proof.
  unfold read_and_keep.
  destruct (dcmread dcmparse tmp p) as [ds|e]; cbn [mbind result_bind].
  - assert (keeps ds = match Modality ds with
                       | Some m => is_CT m | None => false end) as Hk by done.
    cbn [List.filter].
    destruct (Modality ds) as [m|] eqn:Hm; cbn [attr mbind result_bind].
    + split.
      * intros Hst. exists ds. rewrite Hm, Hk. split; [eauto|].
        destruct (is_CT m); [congruence|]. rewrite app_nil_r. congruence.
      * intros (ds' & [[= <-] _] & ->). rewrite Hk.
        destruct (is_CT m); [done|]. by rewrite app_nil_r.
    + split; [done|]. intros (ds' & [[= <-] [m Hm']] & _). congruence.
  - split; [done|]. by intros (? & [? _] & _).
Qed.

Lemma read_each_Ok tmp st st' (paths : list path) :
  for_each (read_and_keep dcmparse tmp) st paths = Ok st' ↔
  ∃ parsed,
    Forall2 (λ p ds, dcmread dcmparse tmp p = Ok ds ∧ is_Some (Modality ds))
      paths parsed ∧
    st' = (st.1 ++ paths, st.2 ++ List.filter keeps parsed).
Proof.
  revert st. induction paths as [|p paths IH]; intros st.
  - cbn [for_each]. split.
    + intros [= <-]. exists []. split; [constructor|].
      cbn [List.filter]. rewrite !app_nil_r. by destruct st.
    + intros (parsed & Hp & ->). inversion Hp; subst.
      cbn [List.filter]. rewrite !app_nil_r. by destruct st.
  - cbn [for_each].
    destruct (read_and_keep dcmparse tmp st p) as [st1|e] eqn:Hrk;
      cbn [mbind result_bind].
    + apply read_and_keep_Ok in Hrk as (ds & Hds & ->).
      rewrite IH. cbn [fst snd]. split.
      * intros (parsed & Hp & ->). exists (ds :: parsed).
        split; [by constructor|].
        change (ds :: parsed) with ([ds] ++ parsed).
        by rewrite List.filter_app, <-!app_assoc.
      * intros (parsed & Hp & ->).
        inversion Hp as [|? ds' ? parsed' Hds' Hp']; subst.
        assert (ds' = ds) as -> by (destruct Hds, Hds'; congruence).
        exists parsed'. split; [done|].
        change (ds :: parsed') with ([ds] ++ parsed').
        by rewrite List.filter_app, <-!app_assoc.
    + split; [done|]. intros (parsed & Hp & _).
      inversion Hp as [|? ds' ? parsed' Hds' Hp']; subst.
      assert (read_and_keep dcmparse tmp st p =
              Ok (st.1 ++ [p], st.2 ++ List.filter keeps [ds'])) as Hok
        by (apply read_and_keep_Ok; eauto).
      congruence.
Qed.

(** Discovery succeeds exactly when every file that passes the name
    filter parses and has a Modality; it has then read those files and
    kept the CT ones, both in walk order. *)
Lemma find_ct_slices_Ok tmp (reads : list path) (cts : list (Dataset F)) :
  find_ct_slices dcmparse tmp = Ok (reads, cts) ↔
  reads = dcm_paths tmp ∧
  ∃ parsed,
    Forall2 (λ p ds, dcmread dcmparse tmp p = Ok ds ∧ is_Some (Modality ds))
      reads parsed ∧
    cts = List.filter keeps parsed.
Proof.
  unfold find_ct_slices. rewrite scan_paths, read_each_Ok. simpl.
  fold (dcm_paths tmp). split.
  - intros (parsed & Hp & [= -> ->]). eauto.
  - intros (-> & parsed & Hp & ->). eauto.
Qed.

End DiscoveryFacts.

(** ** [sorted] *)

Section SortedFacts.

Context {A : Type} (key : A → result Z).
Context `{!∀ a k, Decision (key a = Ok k)}.
Implicit Types (l out : list A) (sp : list (Z * A)).

Lemma keyed_decorate l :
  Forall (λ a, ∃ k, key a = Ok k) l → keyed key (decorate key <$> l).
Proof.
  intros Hl. apply Forall_fmap. eapply Forall_impl; [done|].
  intros a [k Hk]. unfold decorate. simpl. by rewrite Hk.
Qed.

Lemma keyed_sort sp : keyed key sp → keyed key (sort_by_key sp).
Proof. unfold keyed. by rewrite sort_by_key_Permutation. Qed.

Lemma snd_decorate l : snd <$> (decorate key <$> l) = l.
Proof. rewrite <-list_fmap_compose. apply list_fmap_id. Qed.

Lemma keyed_keys sp : keyed key sp → map_each key (snd <$> sp) = Ok (fst <$> sp).
Proof.
  intros Hsp. apply map_each_Forall2.
  induction Hsp as [|y sp Hy _ IH]; constructor; done.
Qed.

Lemma keyed_filter k sp :
  keyed key sp →
  filter (λ a, key a = Ok k) (snd <$> sp) = snd <$> filter (λ y, y.1 = k) sp.
Proof.
  induction 1 as [|y sp Hy _ IH]; [done|].
  rewrite fmap_cons, !filter_cons, IH.
  destruct (decide (key y.2 = Ok k)) as [Hk|Hk];
    destruct (decide (y.1 = k)) as [Hk'|Hk']; try done; congruence.
Qed.

Lemma decorate_filter k l :
  Forall (λ a, ∃ k, key a = Ok k) l →
  filter (λ y, y.1 = k) (decorate key <$> l) =
  decorate key <$> filter (λ a, key a = Ok k) l.
Proof.
  induction 1 as [|a l [k' Ha] _ IH]; [done|].
  rewrite fmap_cons, !filter_cons, IH.
  assert ((decorate key a).1 = k') as Hd
    by (unfold decorate; simpl; by rewrite Ha).
  destruct (decide ((decorate key a).1 = k));
    destruct (decide (key a = Ok k)); try done; congruence.
Qed.

(** What [sorted] returns: the same elements, by ascending key, the
    elements of each key in the order they had. *)
Lemma sorted_props l out :
  sorted key l = Ok out →
  out ≡ₚ l ∧
  (∃ keys, map_each key out = Ok keys ∧ StronglySorted Z.le keys) ∧
  (∀ k, filter (λ a, key a = Ok k) out = filter (λ a, key a = Ok k) l).
Proof.
  intros [Hl ->]%sorted_Ok.
  pose proof (keyed_sort _ (keyed_decorate _ Hl)) as Hsp.
  split; [|split].
  - rewrite sort_by_key_Permutation. by rewrite snd_decorate.
  - exists (fst <$> sort_by_key (decorate key <$> l)).
    split; [by apply keyed_keys|].
    eapply StronglySorted_fmap; [|apply sort_by_key_sorted]. done.
  - intros k. rewrite keyed_filter by done.
    rewrite sort_by_key_stable, decorate_filter by done.
    apply snd_decorate.
Qed.

(** The result depends on the order of the input only through the order
    within each key. *)
Lemma sorted_order_independent l l' out :
  sorted key l = Ok out →
  l' ≡ₚ l →
  (∀ k, filter (λ a, key a = Ok k) l' = filter (λ a, key a = Ok k) l) →
  sorted key l' = Ok out.
Proof.
  intros [Hl ->]%sorted_Ok Hp Hf.
  assert (Forall (λ a, ∃ k, key a = Ok k) l') as Hl' by (by rewrite Hp).
  apply sorted_Ok. split; [done|]. f_equal.
  apply stable_sorted_unique; try apply sort_by_key_sorted.
  - by rewrite !sort_by_key_Permutation, Hp.
  - intros k. rewrite !sort_by_key_stable, !decorate_filter by done.
    by rewrite Hf.
Qed.

(** In any order of the input, the keys of the result are the same
    ascending sequence. *)
Lemma sorted_keys_independent l l' out :
  sorted key l = Ok out →
  l' ≡ₚ l →
  ∃ out', sorted key l' = Ok out' ∧ out' ≡ₚ out ∧
          map_each key out' = map_each key out.
Proof.
  intros [Hl ->]%sorted_Ok Hp.
  assert (Forall (λ a, ∃ k, key a = Ok k) l') as Hl' by (by rewrite Hp).
  exists (snd <$> sort_by_key (decorate key <$> l')).
  split; [by apply sorted_Ok|]. split.
  - by rewrite !sort_by_key_Permutation, Hp.
  - rewrite !keyed_keys by (by apply keyed_sort, keyed_decorate).
    f_equal. apply (StronglySorted_unique Z.le).
    + eapply StronglySorted_fmap; [|apply sort_by_key_sorted]. done.
    + eapply StronglySorted_fmap; [|apply sort_by_key_sorted]. done.
    + by rewrite !sort_by_key_Permutation, Hp.
Qed.

End SortedFacts.

(** ** Binary32: conversion of integers, times one, plus zero *)

Module Binary32Facts.
Import Binary32.

Lemma fexp_24 (e : Z) : (-149 ≤ e)%Z → fexp prec emax (24 + e) = e.
Proof. unfold fexp, emin, prec, emax. lia. Qed.

(** A mantissa of 24 digits with an exponent in range is not rounded. *)
Lemma shr_fexp_24 (m : positive) (e : Z) :
  digits2_pos m = 24%positive → (-149 ≤ e)%Z →
  shr_fexp prec emax (Z.pos m) e loc_Exact =
  ({| shr_m := Z.pos m; shr_r := false; shr_s := false |}, e).
Proof.
  intros Hd He. unfold shr_fexp. simpl Zdigits2. rewrite Hd.
  rewrite fexp_24 by done. by rewrite Z.sub_diag.
Qed.

Lemma finish_24 (s : bool) (m : positive) (e : Z) :
  digits2_pos m = 24%positive → (-149 ≤ e)%Z →
  binary_round_aux prec emax s (Z.pos m) e loc_Exact =
  if (e <=? 104)%Z then S754_finite s m e else S754_infinity s.
Proof.
  intros Hd He. unfold binary_round_aux.
  rewrite shr_fexp_24 by done. simpl. by rewrite shr_fexp_24.
Qed.

Lemma digits2_pos_xO (m : positive) :
  digits2_pos m~0 = Pos.succ (digits2_pos m).
Proof. reflexivity. Qed.

Lemma digits2_pos_xI (m : positive) :
  digits2_pos m~1 = Pos.succ (digits2_pos m).
Proof. reflexivity. Qed.

Lemma digits2_pos_iter (m k : positive) :
  digits2_pos (Pos.iter xO m k) = (digits2_pos m + k)%positive.
Proof.
  induction k as [|k IH] using Pos.peano_ind.
  - change (digits2_pos m~0 = (digits2_pos m + 1)%positive).
    rewrite digits2_pos_xO. lia.
  - rewrite Pos.iter_succ, digits2_pos_xO, IH. lia.
Qed.

Lemma digits2_pos_shift23 (m : positive) :
  digits2_pos (m * 8388608) = (digits2_pos m + 23)%positive.
Proof.
  rewrite <-digits2_pos_iter. f_equal. rewrite Pos.mul_comm. reflexivity.
Qed.

Lemma digits2_pos_bounds (m : positive) :
  (2 ^ (Z.pos (digits2_pos m) - 1) <= Z.pos m < 2 ^ Z.pos (digits2_pos m))%Z.
Proof.
  induction m as [m IH|m IH|].
  - rewrite digits2_pos_xI, Pos2Z.inj_succ, (Pos2Z.inj_xI m).
    replace (Z.succ (Z.pos (digits2_pos m)) - 1)%Z
      with (Z.succ (Z.pos (digits2_pos m) - 1)) by lia.
    rewrite !Z.pow_succ_r by lia. lia.
  - rewrite digits2_pos_xO, Pos2Z.inj_succ, (Pos2Z.inj_xO m).
    replace (Z.succ (Z.pos (digits2_pos m)) - 1)%Z
      with (Z.succ (Z.pos (digits2_pos m) - 1)) by lia.
    rewrite !Z.pow_succ_r by lia. lia.
  - cbn. lia.
Qed.

Lemma digits2_pos_24 (m : positive) :
  digits2_pos m = 24%positive ↔ (8388608 <= Z.pos m < 16777216)%Z.
Proof.
  pose proof (digits2_pos_bounds m) as Hb. split.
  - intros Hd. rewrite Hd in Hb.
    change (2 ^ (24 - 1))%Z with 8388608%Z in Hb.
    change (2 ^ 24)%Z with 16777216%Z in Hb. exact Hb.
  - intros [Hlo Hhi].
    assert (23 < Z.pos (digits2_pos m))%Z.
    { apply (Z.pow_lt_mono_r_iff 2); [lia|lia|].
      change (2 ^ 23)%Z with 8388608%Z. lia. }
    assert (Z.pos (digits2_pos m) - 1 < 24)%Z.
    { apply (Z.pow_lt_mono_r_iff 2); [lia|lia|].
      change (2 ^ 24)%Z with 16777216%Z. lia. }
    lia.
Qed.

Lemma shr_shift23 (m : positive) :
  SpecFloat.iter_pos shr_1 23 {| shr_m := Z.pos (m * 8388608); shr_r := false; shr_s := false |}
  = {| shr_m := Z.pos m; shr_r := false; shr_s := false |}.
Proof. rewrite Pos.mul_comm. reflexivity. Qed.

Lemma of_Z_1 : of_Z 1 = S754_finite false 8388608 (-23).
Proof. reflexivity. Qed.

Lemma of_Z_0 : of_Z 0 = S754_zero false.
Proof. reflexivity. Qed.

Lemma mul_one (x : spec_float) :
  is_normal x → SFmul prec emax x (of_Z 1) = x.
Proof.
  rewrite of_Z_1. destruct x as [s|s| |s m e]; cbn [SFmul is_normal]; try done.
  - intros ->. done.
  - intros _. by rewrite xorb_false_r.
  - intros [Hd He]. rewrite xorb_false_r.
    unfold binary_round_aux.
    assert (shr_fexp prec emax (Z.pos (m * 8388608)) (e + -23) loc_Exact =
            ({| shr_m := Z.pos m; shr_r := false; shr_s := false |}, e)) as ->.
    { unfold shr_fexp. cbn [Zdigits2 shr_record_of_loc].
      rewrite digits2_pos_shift23, Hd.
      replace (fexp prec emax (Z.pos (24 + 23) + (e + -23)) - (e + -23))%Z
        with 23%Z by (unfold fexp, emin, prec, emax; lia).
      unfold shr. rewrite shr_shift23. f_equal. lia. }
    cbn [shr_m loc_of_shr_record round_nearest_even].
    rewrite shr_fexp_24 by (done || lia). cbn [shr_m].
    change (emax - prec)%Z with 104%Z.
    destruct (Z.leb_spec e 104); [done|lia].
Qed.

Lemma add_zero (x : spec_float) :
  is_normal x → SFadd prec emax x (of_Z 0) = x.
Proof.
  rewrite of_Z_0. destruct x as [s|s| |s m e]; cbn [SFadd is_normal]; try done.
  by intros ->.
Qed.

(** Shifting right by one drops one digit and keeps the sign. *)
Lemma shr_1_digits (mrs : shr_record) :
  (0 ≤ shr_m mrs)%Z →
  (0 ≤ shr_m (shr_1 mrs))%Z ∧
  Zdigits2 (shr_m (shr_1 mrs)) = Z.max 0 (Zdigits2 (shr_m mrs) - 1).
Proof.
  destruct mrs as [[|[p|p|]|p] r s]; cbn [shr_1 shr_m Zdigits2]; intros Hm;
    rewrite ?digits2_pos_xO, ?digits2_pos_xI; cbn [digits2_pos]; lia.
Qed.

Lemma iter_shr_1_digits (k : positive) (mrs : shr_record) :
  (0 ≤ shr_m mrs)%Z →
  (0 ≤ shr_m (SpecFloat.iter_pos shr_1 k mrs))%Z ∧
  Zdigits2 (shr_m (SpecFloat.iter_pos shr_1 k mrs))
  = Z.max 0 (Zdigits2 (shr_m mrs) - Z.pos k).
Proof.
  revert mrs. induction k as [k IH|k IH|]; intros mrs Hm; cbn [SpecFloat.iter_pos].
  - destruct (shr_1_digits mrs Hm) as [H1 E1].
    destruct (IH _ H1) as [H2 E2]. destruct (IH _ H2) as [H3 E3].
    split; [done|]. rewrite E3, E2, E1. lia.
  - destruct (IH _ Hm) as [H2 E2]. destruct (IH _ H2) as [H3 E3].
    split; [done|]. rewrite E3, E2. lia.
  - by apply shr_1_digits.
Qed.

Lemma round_up_digits (m : positive) :
  digits2_pos m = 24%positive →
  digits2_pos (m + 1) = 24%positive ∨ (m + 1 = 16777216)%positive.
Proof.
  rewrite !digits2_pos_24, Pos2Z.inj_add. intros [Hlo Hhi].
  destruct (Z.eq_dec (Z.pos m + 1)%Z 16777216%Z) as [Heq|Hne].
  - right. apply Pos2Z.inj. by rewrite Pos2Z.inj_add.
  - left. lia.
Qed.

(** The last step of rounding, on a mantissa of 24 digits or on 2^24. *)
Lemma finish_normal (s : bool) (m : positive) (e : Z) :
  (-149 ≤ e)%Z →
  digits2_pos m = 24%positive ∨ m = 16777216%positive →
  is_normal
    (let '(mrs, e') := shr_fexp prec emax (Z.pos m) e loc_Exact in
     match shr_m mrs with
     | Z0 => S754_zero s
     | Z.pos m' =>
         if (e' <=? emax - prec)%Z then S754_finite s m' e'
         else S754_infinity s
     | Z.neg _ => S754_nan
     end).
Proof.
  intros He [Hd| ->].
  - rewrite shr_fexp_24 by done. cbn [shr_m].
    change (emax - prec)%Z with 104%Z.
    destruct (Z.leb_spec e 104); cbn [is_normal]; [lia|done].
  - unfold shr_fexp. change (Zdigits2 16777216) with 25%Z.
    cbn [shr_record_of_loc].
    replace (fexp prec emax (25 + e) - e)%Z with 1%Z
      by (unfold fexp, emin, prec, emax; lia).
    cbn [shr SpecFloat.iter_pos shr_1 shr_m].
    change (emax - prec)%Z with 104%Z.
    destruct (Z.leb_spec (e + 1) 104); cbn [is_normal]; [|done].
    split; [done|lia].
Qed.

Lemma binary_round_normal (s : bool) (m : positive) :
  is_normal (binary_round prec emax s m 0).
Proof.
  unfold binary_round.
  assert (fexp prec emax (Z.pos (digits2_pos m) + 0)
          = Z.pos (digits2_pos m) - 24)%Z as Hfexp
    by (unfold fexp, emin, prec, emax; lia).
  unfold shl_align. rewrite Hfexp, Z.sub_0_r.
  destruct (Z.pos (digits2_pos m) - 24)%Z as [|k|k] eqn:Hk.
  - assert (digits2_pos m = 24%positive) as Hd by lia.
    rewrite finish_24 by (done || lia). simpl. split; [done|lia].
  - unfold binary_round_aux.
    assert (shr_fexp prec emax (Z.pos m) 0 loc_Exact =
            (SpecFloat.iter_pos shr_1 k
               {| shr_m := Z.pos m; shr_r := false; shr_s := false |},
             Z.pos k)) as ->.
    { unfold shr_fexp. cbn [Zdigits2 shr_record_of_loc].
      rewrite Hfexp, Z.sub_0_r, ?Hk. reflexivity. }
    destruct (iter_shr_1_digits k
                {| shr_m := Z.pos m; shr_r := false; shr_s := false |})
      as [Hpos Hdig]; [done|].
    cbn [shr_m Zdigits2] in Hdig.
    destruct (SpecFloat.iter_pos shr_1 k _) as [[|m1|m1] r sb];
      cbn [shr_m Zdigits2] in *; [lia| |lia].
    assert (digits2_pos m1 = 24%positive) as Hd1 by lia.
    destruct (round_up_digits _ Hd1) as [Hup|Hup].
    + destruct r, sb; cbn [loc_of_shr_record round_nearest_even];
        try (destruct (Z.even (Z.pos m1)));
        change (Z.pos m1 + 1)%Z with (Z.pos (m1 + 1));
        apply finish_normal; (lia || eauto).
    + destruct r, sb; cbn [loc_of_shr_record round_nearest_even];
        try (destruct (Z.even (Z.pos m1)));
        change (Z.pos m1 + 1)%Z with (Z.pos (m1 + 1));
        apply finish_normal; (lia || eauto).
  - assert (digits2_pos (Pos.iter xO m k) = 24%positive) as Hd
      by (rewrite digits2_pos_iter; lia).
    rewrite finish_24 by (done || lia).
    destruct (Z.leb_spec (Z.neg k) 104); [|lia].
    split; [done|lia].
Qed.

Lemma of_Z_normal (z : Z) : is_normal (of_Z z).
Proof. destruct z; [done|apply binary_round_normal..]. Qed.

(** In binary32, a converted integer times 1 plus 0 is itself. *)
Lemma of_Z_mul_one_add_zero (z : Z) :
  SFadd prec emax (SFmul prec emax (of_Z z) (of_Z 1)) (of_Z 0) = of_Z z.
Proof.
  pose proof (of_Z_normal z) as Hn.
  rewrite mul_one by done. by apply add_zero.
Qed.

Lemma Zpos_iter_xO (m k : positive) :
  Z.pos (Pos.iter xO m k) = (Z.pos m * 2 ^ Z.pos k)%Z.
Proof.
  induction k as [|k IH] using Pos.peano_ind.
  - change (Z.pos m~0 = Z.pos m * 2 ^ 1)%Z. rewrite (Pos2Z.inj_xO m). lia.
  - rewrite Pos.iter_succ, (Pos2Z.inj_xO (Pos.iter xO m k)), IH.
    rewrite Pos2Z.inj_succ, Z.pow_succ_r by lia. lia.
Qed.

(** An integer of at most 24 digits is converted without rounding. *)
Lemma binary_round_small (s : bool) (m : positive) :
  (Z.pos (digits2_pos m) ≤ 24)%Z →
  ∃ m' e, binary_round prec emax s m 0 = S754_finite s m' e ∧
          (inject_Z (Z.pos m') * Qpower 2 e == inject_Z (Z.pos m))%Q.
Proof.
  intros Hd. unfold binary_round.
  assert (fexp prec emax (Z.pos (digits2_pos m) + 0)
          = Z.pos (digits2_pos m) - 24)%Z as Hfexp
    by (unfold fexp, emin, prec, emax; lia).
  unfold shl_align. rewrite Hfexp, Z.sub_0_r.
  destruct (Z.pos (digits2_pos m) - 24)%Z as [|k|k] eqn:Hk; [|lia|].
  - assert (digits2_pos m = 24%positive) as Hd24 by lia.
    rewrite finish_24 by (done || lia). exists m, 0%Z. split; [done|].
    simpl. ring.
  - assert (digits2_pos (Pos.iter xO m k) = 24%positive) as Hd24
      by (rewrite digits2_pos_iter; lia).
    rewrite finish_24 by (done || lia).
    destruct (Z.leb_spec (Z.neg k) 104); [|lia].
    eexists _, _. split; [done|].
    rewrite Zpos_iter_xO, inject_Z_mult, Zpower_Qpower by lia.
    change (inject_Z 2) with 2%Q. cbn [Qpower].
    assert (¬ (Qpower_positive 2 k == 0)%Q) as Hnz
      by (apply Qpower_not_0_positive; done).
    field. done.
Qed.

Lemma of_Z_exact (z : Z) :
  (Z.abs z ≤ 16777216)%Z →
  ∃ q, value (of_Z z) = Some q ∧ (q == inject_Z z)%Q.
Proof.
  intros Hz.
  destruct (Z.eq_dec (Z.abs z) 16777216%Z) as [Heq|Hne].
  { assert (z = 16777216 ∨ z = -16777216)%Z as [-> | ->] by lia;
      eexists; (split; [vm_compute; reflexivity|done]). }
  destruct z as [|m|m].
  - exists 0%Q. done.
  - pose proof (digits2_pos_bounds m) as [Hlo _].
    destruct (binary_round_small false m) as (m' & e & Hr & Hv).
    { assert (Z.pos (digits2_pos m) - 1 < 24)%Z; [|lia].
      apply (Z.pow_lt_mono_r_iff 2); [lia|lia|].
      change (2 ^ 24)%Z with 16777216%Z. lia. }
    unfold of_Z, binary_normalize. rewrite Hr. eexists. split; [done|].
    exact Hv.
  - pose proof (digits2_pos_bounds m) as [Hlo _].
    destruct (binary_round_small true m) as (m' & e & Hr & Hv).
    { assert (Z.pos (digits2_pos m) - 1 < 24)%Z; [|lia].
      apply (Z.pow_lt_mono_r_iff 2); [lia|lia|].
      change (2 ^ 24)%Z with 16777216%Z. lia. }
    unfold of_Z, binary_normalize. rewrite Hr. eexists. split; [done|].
    cbn beta iota zeta. rewrite Hv. done.
Qed.

End Binary32Facts.

(** ** Arrays *)

Lemma shape_eqb_eq (s t : nat * nat) : shape_eqb s t = true ↔ s = t.
Proof.
  unfold shape_eqb. destruct s as [r c], t as [r' c']. simpl.
  rewrite andb_true_iff, !Nat.eqb_eq. split; [by intros [-> ->]|].
  by intros [= -> ->].
Qed.

Lemma arr_map_compose {A B C : Type} (f : A → B) (g : B → C) (a : ndarray A) :
  arr_map g (arr_map f a) = arr_map (g ∘ f) a.
Proof. unfold arr_map. simpl. by rewrite <-list_fmap_compose. Qed.

(** [np.stack] succeeds exactly on a non-empty list of arrays of one
    shape, and its slices are then the arrays, in their order. *)
Lemma np_stack_Ok {A : Type} (arrays volume : list (ndarray A)) :
  np_stack arrays = Ok volume ↔
  arrays ≠ [] ∧ (∀ a b, a ∈ arrays → b ∈ arrays → shape a = shape b) ∧
  volume = arrays.
Proof.
  destruct arrays as [|a rest]; simpl.
  - split; [done|]. by intros [? _].
  - destruct (forallb _ rest) eqn:Hall.
    + rewrite forallb_forall in Hall.
      assert (∀ b, b ∈ a :: rest → shape b = shape a) as Hsh.
      { intros b [->|Hb]%elem_of_cons; [done|].
        apply shape_eqb_eq, Hall. by apply list_elem_of_In. }
      split.
      * intros [= <-]. split; [done|]. split; [|done].
        intros b c Hb Hc. by rewrite (Hsh b), (Hsh c).
      * by intros (_ & _ & ->).
    + split; [done|]. intros (_ & Hsh & _).
      apply not_true_iff_false in Hall. destruct Hall.
      apply forallb_forall. intros b Hb%list_elem_of_In.
      apply shape_eqb_eq, Hsh; [by right|by left].
Qed.

(** Any failure of [np.stack] is its own [ValueError]. *)
Lemma np_stack_Raise {A : Type} (arrays : list (ndarray A)) (e : exn) :
  np_stack arrays = Raise e → ∃ msg, e = ValueError msg.
Proof.
  destruct arrays as [|a rest]; simpl; [intros [= <-]; eauto|].
  destruct (forallb _ rest); [done|]. intros [= <-]. eauto.
Qed.

(** ** Conversion and assembly *)

Section PipelineFacts.

Context {F : Type} `{FloatOps F}.
Implicit Types (s : Dataset F) (hu : ndarray F) (n : Z).
Implicit Types (ct_slices ordered : list (Dataset F)).
Implicit Types (volume : list (ndarray F)) (page : list (ui_event F)).

Lemma instance_key_Ok s n : instance_key s = Ok n ↔ InstanceNumber s = Some (Some n).
Proof.
  unfold instance_key, attr, py_int.
  destruct (InstanceNumber s) as [[?|]|]; naive_solver.
Qed.

Lemma hu_slice_Ok s hu :
  hu_slice s = Ok hu ↔
  ∃ pixels, pixel_array s = Some pixels ∧
    hu = arr_map (λ P, fadd (fmul (astype_float32 P)
                               (getattr (RescaleSlope s) (of_int 1)))
                         (getattr (RescaleIntercept s) (of_int 0))) pixels.
Proof.
  unfold hu_slice. destruct (pixel_array s) as [pixels|]; simpl.
  - rewrite !arr_map_compose. split.
    + intros [= <-]. by exists pixels.
    + by intros (? & [= <-] & ->).
  - split; [done|]. by intros (? & ? & _).
Qed.

Lemma hu_slice_shape s hu pixels :
  hu_slice s = Ok hu → pixel_array s = Some pixels → shape hu = shape pixels.
Proof.
  intros (pixels' & Hp & ->)%hu_slice_Ok. by intros [= <-]%(eq_trans (eq_sym Hp)).
Qed.

Lemma assemble_Ok ct_slices volume :
  assemble ct_slices = Ok volume ↔
  ∃ ordered,
    sorted instance_key ct_slices = Ok ordered ∧
    Forall2 (λ s hu, hu_slice s = Ok hu) ordered volume ∧
    volume ≠ [] ∧
    (∀ a b, a ∈ volume → b ∈ volume → shape a = shape b).
Proof.
  unfold assemble.
  destruct (sorted instance_key ct_slices) as [ordered|e]; simpl.
  - destruct (map_each hu_slice ordered) as [arrays|e] eqn:Hhu; simpl.
    + rewrite np_stack_Ok. split.
      * intros (Hne & Hsh & ->). exists ordered.
        by rewrite <-map_each_Forall2.
      * intros (? & [= <-] & Hv%map_each_Forall2 & Hne & Hsh).
        assert (arrays = volume) as -> by congruence. done.
    + split; [done|]. intros (? & [= <-] & Hv%map_each_Forall2 & _).
      congruence.
  - split; [done|]. by intros (? & ? & _).
Qed.

Lemma filter_number n (l : list (Dataset F)) :
  filter (λ s, instance_key s = Ok n) l =
  filter (λ s, InstanceNumber s = Some (Some n)) l.
Proof. apply list_filter_iff. intros s. apply instance_key_Ok. Qed.

Lemma numbers_Forall2 ordered (numbers : list Z) :
  map_each instance_key ordered = Ok numbers ↔
  Forall2 (λ s n, InstanceNumber s = Some (Some n)) ordered numbers.
Proof.
  rewrite map_each_Forall2. split; intros Hn;
    (eapply Forall2_impl; [done|]); intros s n; by rewrite instance_key_Ok.
Qed.

(** Conversion of a reordered list gives the reordered arrays. *)
Lemma hu_Forall2_Permutation ordered ordered' volume :
  Forall2 (λ s hu, hu_slice s = Ok hu) ordered volume →
  ordered' ≡ₚ ordered →
  ∃ volume', Forall2 (λ s hu, hu_slice s = Ok hu) ordered' volume' ∧
             volume' ≡ₚ volume.
Proof.
  intros Hv%map_each_Forall2 Hp. symmetry in Hp.
  destruct (map_each_Permutation _ _ _ _ Hp Hv) as (volume' & Hv' & Hp').
  exists volume'. by rewrite <-map_each_Forall2.
Qed.

(** C1.  The slices of the assembled volume are the kept records in
    ascending order of [int(InstanceNumber)]: the volume is the
    conversion, slice by slice, of a reordering [ordered] of
    [ct_slices] whose numbers ascend; records of equal number keep
    their discovery order; and the order of discovery does not matter:
    any other discovery order gives a volume with the same ascending
    sequence of numbers, and the same volume when it agrees on the order
    of the records of each number. *)
Theorem volume_in_InstanceNumber_order ct_slices volume :
  assemble ct_slices = Ok volume →
  ∃ ordered (numbers : list Z),
    ordered ≡ₚ ct_slices ∧
    Forall2 (λ s hu, hu_slice s = Ok hu) ordered volume ∧
    Forall2 (λ s n, InstanceNumber s = Some (Some n)) ordered numbers ∧
    StronglySorted Z.le numbers ∧
    (∀ n, filter (λ s, InstanceNumber s = Some (Some n)) ordered =
          filter (λ s, InstanceNumber s = Some (Some n)) ct_slices) ∧
    (∀ discovered, discovered ≡ₚ ct_slices →
       ∃ ordered' volume',
         assemble discovered = Ok volume' ∧
         Forall2 (λ s hu, hu_slice s = Ok hu) ordered' volume' ∧
         Forall2 (λ s n, InstanceNumber s = Some (Some n)) ordered' numbers) ∧
    (∀ discovered, discovered ≡ₚ ct_slices →
       (∀ n, filter (λ s, InstanceNumber s = Some (Some n)) discovered =
             filter (λ s, InstanceNumber s = Some (Some n)) ct_slices) →
       assemble discovered = Ok volume).
Proof.
  intros (ordered & Hsort & Hhu & Hne & Hsh)%assemble_Ok.
  destruct (sorted_props _ _ _ Hsort) as (Hperm & (numbers & Hnum & Hasc) & Hst).
  exists ordered, numbers. repeat split; try done.
  - by apply numbers_Forall2.
  - intros n. by rewrite <-!filter_number.
  - intros discovered Hd.
    destruct (sorted_keys_independent _ _ _ _ Hsort Hd)
      as (ordered' & Hsort' & Hperm' & Hnum').
    destruct (hu_Forall2_Permutation _ _ _ Hhu Hperm')
      as (volume' & Hhu' & Hvp).
    exists ordered', volume'. split; [|split; [done|]].
    + apply assemble_Ok. exists ordered'. repeat split; try done.
      * intros ->. apply Permutation_nil_l in Hvp. done.
      * intros a b Ha Hb. rewrite Hvp in Ha, Hb. by apply Hsh.
    + apply numbers_Forall2. by rewrite Hnum'.
  - intros discovered Hd Hf. apply assemble_Ok. exists ordered.
    repeat split; try done.
    apply (sorted_order_independent _ _ _ _ Hsort Hd).
    intros n. by rewrite !filter_number.
Qed.

(** C2.  A slice with RescaleSlope [S], RescaleIntercept [I] and pixel
    data is converted, and each HU value is [P * S + I] in the float
    arithmetic, where the raw pixel value [P] at that position is first
    converted to 32-bit float, then multiplied, then added to. *)
Theorem hu_value_is_pixel_times_slope_plus_intercept s (S I : F)
    (pixels : ndarray Z) :
  RescaleSlope s = Some S →
  RescaleIntercept s = Some I →
  pixel_array s = Some pixels →
  ∃ hu, hu_slice s = Ok hu ∧
    shape hu = shape pixels ∧
    length (data hu) = length (data pixels) ∧
    ∀ i P, data pixels !! i = Some P →
           data hu !! i = Some (fadd (fmul (astype_float32 P) S) I).
Proof.
  intros HS HI Hp. eexists. split.
  { apply hu_slice_Ok. exists pixels. split; [done|]. by rewrite HS, HI. }
  simpl. split; [done|]. split; [by rewrite length_fmap|].
  intros i P Hi. by rewrite list_lookup_fmap, Hi.
Qed.

Lemma getitem_Ok {A : Type} (l : list A) (i : nat) (a : A) :
  getitem l i = Ok a ↔ l !! i = Some a.
Proof. unfold getitem. destruct (l !! i); naive_solver. Qed.

Lemma assemble_length ct_slices volume :
  assemble ct_slices = Ok volume →
  length volume = length ct_slices ∧ 0 < length volume.
Proof.
  intros (ordered & Hsort & Hhu & Hne & _)%assemble_Ok.
  destruct (sorted_props _ _ _ Hsort) as (Hperm & _).
  apply Forall2_length in Hhu. split.
  - by rewrite <-Hhu, Hperm.
  - destruct volume; [done|simpl; lia].
Qed.

(** What the [else] branch shows once the volume is assembled. *)
Lemma display_assembled ct_slices volume page :
  assemble ct_slices = Ok volume →
  ∃ img, volume !! (length volume / 2) = Some img ∧
    display ct_slices page =
    (page ++
       [St_write ("Displaying middle slice #" +:+ pretty (length volume / 2));
        St_pyplot (Imshow img "gray" (-1000) 400);
        St_pyplot (Hist (histogram (ravel volume) 200 (-1000) 2000)
                        200 (-1000, 2000)%Z)],
     Ok tt).
Proof.
  intros Hv. destruct (assemble_length _ _ Hv) as [_ Hpos].
  destruct (lookup_lt_is_Some_2 volume (length volume / 2)) as [img Himg].
  { apply Nat.div_lt; lia. }
  exists img. split; [done|].
  unfold display, ui_bind, lift, show. rewrite Hv.
  unfold getitem. rewrite Himg. by rewrite <-!app_assoc.
Qed.

Lemma display_not_assembled ct_slices e page :
  assemble ct_slices = Raise e → display ct_slices page = (page, Raise e).
Proof. intros He. unfold display, ui_bind, lift. by rewrite He. Qed.

(** C4.  The slice shown is the one at index [floor(N / 2)] of the first
    axis of the volume of [N >= 1] slices: index 5 for 10 slices and for
    11 slices. *)
Theorem displayed_slice_is_at_half_the_count ct_slices volume page :
  assemble ct_slices = Ok volume →
  (1 ≤ length volume)%nat ∧
  ∃ img rest,
    volume !! (length volume / 2) = Some img ∧
    display ct_slices page =
      (page ++
         St_write ("Displaying middle slice #" +:+ pretty (length volume / 2))
         :: St_pyplot (Imshow img "gray" (-1000) 400) :: rest, Ok tt) ∧
    (length volume = 10 → volume !! 5 = Some img) ∧
    (length volume = 11 → volume !! 5 = Some img).
Proof.
  intros Hv. destruct (assemble_length _ _ Hv) as [_ Hpos].
  split; [lia|].
  destruct (display_assembled _ _ page Hv) as (img & Himg & Hd).
  exists img; eexists. split; [done|]. split; [exact Hd|].
  split; intros HN; by rewrite HN in Himg.
Qed.

Lemma hu_arrays_of ordered (arrays : list (ndarray F)) :
  Forall2 (λ s hu, hu_slice s = Ok hu) ordered arrays →
  (∀ a, a ∈ arrays →
     ∃ s p, s ∈ ordered ∧ pixel_array s = Some p ∧ shape a = shape p) ∧
  (∀ s p, s ∈ ordered → pixel_array s = Some p →
     ∃ a, a ∈ arrays ∧ shape a = shape p).
Proof.
  intros Hhu. split.
  - intros a [i Hi]%list_elem_of_lookup.
    destruct (Forall2_lookup_r _ _ _ _ _ Hhu Hi) as (s & Hs & Hsa).
    pose proof Hsa as (p & Hp & ->)%hu_slice_Ok.
    exists s, p. split; [by eapply list_elem_of_lookup_2|done].
  - intros s p [i Hi]%list_elem_of_lookup Hp.
    destruct (Forall2_lookup_l _ _ _ _ _ Hhu Hi) as (a & Ha & Hsa).
    exists a. split; [by eapply list_elem_of_lookup_2|].
    by eapply hu_slice_shape.
Qed.

(** C8.  The converted slices are stacked in sorted order along a new
    first axis; with the kept records ordered and converted, the stack
    succeeds exactly when all kept slices have one shape, and otherwise
    fails with the [ValueError] of [np.stack] itself. *)
Theorem stack_succeeds_iff_one_shape ct_slices ordered
    (arrays : list (ndarray F)) :
  ct_slices ≠ [] →
  sorted instance_key ct_slices = Ok ordered →
  map_each hu_slice ordered = Ok arrays →
  (assemble ct_slices = Ok arrays ↔ one_shape ct_slices) ∧
  (¬ one_shape ct_slices →
     assemble ct_slices =
     Raise (ValueError "all input arrays must have the same shape")) ∧
  Forall2 (λ s hu, hu_slice s = Ok hu) ordered arrays.
Proof.
  intros Hne Hsort Hhu.
  cut ((assemble ct_slices = Ok arrays ↔ one_shape ct_slices) ∧
       (assemble ct_slices ≠ Ok arrays →
          assemble ct_slices =
          Raise (ValueError "all input arrays must have the same shape")) ∧
       Forall2 (λ s hu, hu_slice s = Ok hu) ordered arrays).
  { intros (Hiff & Hfail & Hall). split; [done|]. split; [|done].
    intros Hno. apply Hfail. by rewrite Hiff. }
  assert (assemble ct_slices = np_stack arrays) as ->.
  { unfold assemble. rewrite Hsort. simpl. by rewrite Hhu. }
  destruct (sorted_props _ _ _ Hsort) as (Hperm & _).
  pose proof Hhu as Hhu2%map_each_Forall2.
  destruct (hu_arrays_of _ _ Hhu2) as [Harr Hrec].
  assert (arrays ≠ []) as Hne'.
  { intros ->. apply Forall2_length in Hhu2.
    destruct ordered; [|done]. by apply Permutation_nil_l in Hperm. }
  split; [|split; [|done]].
  - rewrite np_stack_Ok. split.
    + intros (_ & Hsh & _) s t p q Hs Ht Hp Hq.
      rewrite <-Hperm in Hs, Ht.
      destruct (Hrec _ _ Hs Hp) as (a & Ha & <-).
      destruct (Hrec _ _ Ht Hq) as (b & Hb & <-). by apply Hsh.
    + intros Hone. split; [done|]. split; [|done].
      intros a b Ha Hb.
      destruct (Harr _ Ha) as (s & p & Hs & Hp & ->).
      destruct (Harr _ Hb) as (t & q & Ht & Hq & ->).
      rewrite Hperm in Hs, Ht. exact (Hone s t p q Hs Ht Hp Hq).
  - destruct arrays as [|a rest]; [done|]. simpl.
    destruct (forallb _ rest); done.
Qed.

Lemma assemble_Raise ct_slices e :
  assemble ct_slices = Raise e →
  (∃ name, e = AttributeError name) ∨ e = TypeError ∨
  (∃ msg, e = ValueError msg).
Proof.
  assert (∀ {A} name (tag : option A) e,
            attr name tag = Raise e → e = AttributeError name) as Hattr.
  { intros A name [v|] e'; simpl; [done|]. by intros [= <-]. }
  unfold assemble, sorted.
  destruct (map_each instance_key ct_slices) as [keys|e'] eqn:Hk; simpl.
  - destruct (map_each hu_slice _) as [arrays|e'] eqn:Hhu; simpl.
    + intros Hst%np_stack_Raise. by right; right.
    + intros [= ->]. left.
      apply map_each_Raise in Hhu as (s & _ & Hs). unfold hu_slice in Hs.
      destruct (attr "PixelData" (pixel_array s)) eqn:Hp; simpl in Hs;
        [done|]. injection Hs as ->. eauto.
  - intros [= ->].
    apply map_each_Raise in Hk as (s & _ & Hs).
    unfold instance_key, attr, py_int in Hs.
    destruct (InstanceNumber s) as [[?|]|]; simpl in Hs; [done| |].
    + right; left. congruence.
    + left. injection Hs as <-. eauto.
Qed.

(** C9.  In the display branch, taken when [len(ct_slices)] is not 0,
    an assembled volume has as many slices as [ct_slices], at least
    one, so [0 <= N // 2 < N] and [volume[N // 2]] is a slice; the
    branch never raises [IndexError]. *)
Theorem middle_index_within_volume ct_slices page :
  length ct_slices ≠ 0 →
  (∀ volume, assemble ct_slices = Ok volume →
     length volume = length ct_slices ∧
     (0 ≤ length volume / 2 < length volume)%nat ∧
     ∃ img, getitem volume (length volume / 2) = Ok img) ∧
  (∀ page' e, display ct_slices page = (page', Raise e) → e ≠ IndexError).
Proof.
  intros Hlen. split.
  - intros volume Hv. destruct (assemble_length _ _ Hv) as [HN Hpos].
    split; [done|]. split.
    + split; [lia|]. apply Nat.div_lt; lia.
    + destruct (display_assembled _ _ page Hv) as (img & Himg & _).
      exists img. by apply getitem_Ok.
  - intros page' e Hd. destruct (assemble ct_slices) as [volume|e'] eqn:Hv.
    + destruct (display_assembled _ _ page Hv) as (img & _ & Hd').
      congruence.
    + rewrite (display_not_assembled _ _ _ Hv) in Hd.
      injection Hd as _ ->.
      by destruct (assemble_Raise _ _ Hv) as [[? ->]|[->|[? ->]]].
Qed.

End PipelineFacts.

(** C3, as amended.  A slice without RescaleSlope is converted with
    slope 1, a slice without RescaleIntercept with intercept 0; with
    both absent the HU values are [P * 1 + 0], which is the raw pixel
    value converted to a 32-bit float wherever the arithmetic has
    [x * 1 + 0 = x] on the converted pixels, as IEEE binary32 has for
    every integer pixel value.  The conversion is exact up to 2^24 in
    magnitude: a slice without the tags whose pixels are within that
    bound has HU equal to the raw pixel values. *)
Theorem absent_rescale_tags_default_to_1_and_0 {F : Type} `{FloatOps F}
    (s : Dataset F) (pixels : ndarray Z) :
  pixel_array s = Some pixels →
  (RescaleSlope s = None →
     hu_slice s =
     Ok (arr_map (λ P, fadd (fmul (astype_float32 P) (of_int 1))
                            (getattr (RescaleIntercept s) (of_int 0)))
           pixels)) ∧
  (RescaleIntercept s = None →
     hu_slice s =
     Ok (arr_map (λ P, fadd (fmul (astype_float32 P)
                               (getattr (RescaleSlope s) (of_int 1)))
                            (of_int 0))
           pixels)) ∧
  (RescaleSlope s = None → RescaleIntercept s = None →
     Forall (λ P, fadd (fmul (astype_float32 P) (of_int 1)) (of_int 0)
                  = astype_float32 P) (data pixels) →
     hu_slice s = Ok (arr_map astype_float32 pixels)) ∧
  (∀ (s32 : Dataset spec_float) (pixels32 : ndarray Z),
     pixel_array s32 = Some pixels32 →
     RescaleSlope s32 = None → RescaleIntercept s32 = None →
     hu_slice s32 = Ok (arr_map Binary32.of_Z pixels32)) ∧
  (∀ P : Z, (Z.abs P ≤ 16777216)%Z →
     ∃ q, fvalue (Binary32.of_Z P) = Some q ∧ (q == inject_Z P)%Q) ∧
  (∀ (s32 : Dataset spec_float) (pixels32 : ndarray Z),
     pixel_array s32 = Some pixels32 →
     RescaleSlope s32 = None → RescaleIntercept s32 = None →
     Forall (λ P, (Z.abs P ≤ 16777216)%Z) (data pixels32) →
     ∃ hu, hu_slice s32 = Ok hu ∧ shape hu = shape pixels32 ∧
           equals_raw hu pixels32).
Proof.
  intros Hp.
  assert (hu_slice s =
          Ok (arr_map (λ P, fadd (fmul (astype_float32 P)
                                    (getattr (RescaleSlope s) (of_int 1)))
                              (getattr (RescaleIntercept s) (of_int 0)))
                pixels)) as Hhu by (apply hu_slice_Ok; eauto).
  assert (∀ (s32 : Dataset spec_float) (pixels32 : ndarray Z),
            pixel_array s32 = Some pixels32 →
            RescaleSlope s32 = None → RescaleIntercept s32 = None →
            hu_slice s32 = Ok (arr_map Binary32.of_Z pixels32)) as H32.
  { intros s32 pixels32 Hp32 HS HI.
    apply hu_slice_Ok. exists pixels32. split; [done|].
    rewrite HS, HI. unfold arr_map. f_equal.
    apply list_fmap_ext. intros i P _. symmetry.
    apply Binary32Facts.of_Z_mul_one_add_zero. }
  split; [|split; [|split; [|split; [|split]]]].
  - intros HS. by rewrite Hhu, HS.
  - intros HI. by rewrite Hhu, HI.
  - intros HS HI Hunit. rewrite Hhu, HS, HI. simpl. unfold arr_map.
    do 2 f_equal. by apply Forall_fmap_ext_1.
  - exact H32.
  - apply Binary32Facts.of_Z_exact.
  - intros s32 pixels32 Hp32 HS HI Hbound.
    exists (arr_map Binary32.of_Z pixels32).
    split; [by apply H32|]. split; [done|].
    unfold equals_raw, arr_map. simpl.
    apply Forall2_fmap_l, Forall_Forall2_diag.
    eapply Forall_impl; [exact Hbound|].
    intros P HP. by apply Binary32Facts.of_Z_exact.
Qed.

(** C3 as the spec has it, without the bound, fails: the pixel
    2^24 + 1 of a slice without rescale tags has the HU value 2^24. *)
Lemma absent_rescale_tags_counterexample :
  pixel_array MoreDemo.wide = Some (mk_ndarray (1, 1)%nat [16777217%Z]) ∧
  RescaleSlope MoreDemo.wide = None ∧
  RescaleIntercept MoreDemo.wide = None ∧
  ∃ hu h q,
    hu_slice MoreDemo.wide = Ok hu ∧ data hu = [h] ∧
    fvalue h = Some q ∧ (q == inject_Z 16777216)%Q ∧
    ¬ equals_raw hu (mk_ndarray (1, 1)%nat [16777217%Z]).
Proof.
  split; [reflexivity|]. split; [reflexivity|]. split; [reflexivity|].
  eexists _, _, _. split; [vm_compute; reflexivity|].
  split; [reflexivity|]. split; [vm_compute; reflexivity|].
  split; [reflexivity|].
  unfold equals_raw. simpl. intros Hall.
  apply Forall2_cons_1 in Hall as [(q & Hq & Heq) _].
  vm_compute in Hq. injection Hq as <-. vm_compute in Heq. discriminate.
Qed.

(** ** The histogram *)

Section HistogramFacts.
Context {F : Type} `{FloatOps F}.

Lemma Qle_bool_false (x y : Q) : Qle_bool x y = false ↔ (y < x)%Q.
Proof.
  rewrite <-not_true_iff_false, Qle_bool_iff. split.
  - apply Qnot_le_lt.
  - apply Qlt_not_le.
Qed.

Lemma inject_nat_succ (i : nat) :
  (inject_Z (Z.of_nat (S i)) == inject_Z (Z.of_nat i) + 1)%Q.
Proof. by rewrite Nat2Z.inj_succ, <-Z.add_1_r, inject_Z_plus. Qed.

Lemma inject_nat_nonneg (i : nat) : (0 <= inject_Z (Z.of_nat i))%Q.
Proof. change 0%Q with (inject_Z 0). rewrite <-Zle_Qle. lia. Qed.

Lemma bin_edge_200 (i : nat) :
  (bin_edge 200 (-1000) 2000 i == -1000 + 15 * inject_Z (Z.of_nat i))%Q.
Proof.
  unfold bin_edge, Qdiv.
  change (inject_Z (2000 - -1000)) with (3000#1).
  change (inject_Z (Z.of_nat 200)) with (200#1).
  change (inject_Z (-1000)) with (-1000#1).
  change (/ (200#1))%Q with (1#200). lra.
Qed.

(** The position of a value on the bin axis. *)
Lemma bin_position (q : Q) :
  ((q - inject_Z (-1000)) * inject_Z (Z.of_nat 200) / inject_Z (2000 - -1000)
   == (q + 1000) * (1#15))%Q.
Proof.
  unfold Qdiv.
  change (inject_Z (2000 - -1000)) with (3000#1).
  change (inject_Z (Z.of_nat 200)) with (200#1).
  change (inject_Z (-1000)) with (-1000#1).
  change (/ (3000#1))%Q with (1#3000). lra.
Qed.

Lemma bin_index_200 (x : F) (i : nat) :
  bin_index 200 (-1000) 2000 x = Some i ↔
  (i < 200)%nat ∧ in_bin 200 (-1000) 2000 i x = true.
Proof.
  unfold bin_index, in_bin. destruct (fvalue x) as [q|]; [|by split; [|intros [_ ?]]].
  rewrite (Qfloor_comp _ _ (bin_position q)).
  pose proof (Qfloor_le ((q + 1000) * (1#15))) as Hz1.
  pose proof (Qlt_floor ((q + 1000) * (1#15))) as Hz2.
  set (z := Qfloor ((q + 1000) * (1#15))) in *.
  rewrite inject_Z_plus in Hz2. change (inject_Z 1) with 1%Q in Hz2.
  change (inject_Z (-1000)) with (-1000#1).
  change (inject_Z 2000) with (2000#1).
  pose proof (bin_edge_200 i) as Hei.
  pose proof (bin_edge_200 (S i)) as Hesi.
  rewrite inject_nat_succ in Hesi.
  pose proof (inject_nat_nonneg i) as Hi0.
  rewrite andb_true_iff, Qle_bool_iff.
  split.
  - destruct (Qle_bool (-1000 # 1) q && Qle_bool q (2000 # 1)) eqn:Hr; [|done].
    apply andb_true_iff in Hr as [Hlo Hhi]. rewrite Qle_bool_iff in Hlo, Hhi.
    assert (0 ≤ z ≤ 200)%Z as Hz.
    { assert (inject_Z (-1) < inject_Z z)%Q as Hz0
        by (change (inject_Z (-1)) with (-1#1); lra).
      assert (inject_Z z <= inject_Z 200)%Q as Hz200
        by (change (inject_Z 200) with (200#1); lra).
      rewrite <-Zlt_Qlt in Hz0. rewrite <-Zle_Qle in Hz200. lia. }
    intros [= <-]. destruct (Nat.eqb_spec (Z.to_nat z) 200) as [Hn|Hn].
    + assert (z = 200%Z) as Hz200 by lia. rewrite Hz200 in *.
      change (inject_Z 200) with (200#1) in *.
      change (inject_Z (Z.of_nat 199)) with (199#1) in *.
      split; [lia|]. split; [lra|]. simpl. apply Qle_bool_iff. lra.
    + assert (inject_Z (Z.of_nat (Z.to_nat z)) = inject_Z z) as Hnz
        by (f_equal; lia).
      rewrite Hnz in *.
      split; [lia|]. split; [lra|].
      destruct (Nat.eqb_spec (S (Z.to_nat z)) 200) as [Hs|Hs].
      * apply Qle_bool_iff.
        assert (z = 199%Z) as Hz199 by lia. rewrite Hz199 in *.
        change (inject_Z 199) with (199#1) in *. lra.
      * apply negb_true_iff, Qle_bool_false. lra.
  - intros (Hi & Hlo & Hup).
    assert (inject_Z (Z.of_nat i) <= inject_Z 199)%Q as Hi199
      by (rewrite <-Zle_Qle; lia).
    change (inject_Z 199) with (199#1) in Hi199.
    destruct (Nat.eqb_spec (S i) 200) as [Hs|Hs].
    + apply Qle_bool_iff in Hup.
      assert (i = 199)%nat as -> by lia.
      change (inject_Z (Z.of_nat 199)) with (199#1) in *.
      assert (Qle_bool (-1000 # 1) q && Qle_bool q (2000 # 1) = true) as ->.
      { apply andb_true_iff. rewrite !Qle_bool_iff. lra. }
      assert (inject_Z 198 < inject_Z z)%Q as Hz0
        by (change (inject_Z 198) with (198#1); lra).
      assert (inject_Z z <= inject_Z 200)%Q as Hz200
        by (change (inject_Z 200) with (200#1); lra).
      rewrite <-Zlt_Qlt in Hz0. rewrite <-Zle_Qle in Hz200.
      f_equal. destruct (Nat.eqb_spec (Z.to_nat z) 200); lia.
    + apply negb_true_iff, Qle_bool_false in Hup.
      assert (Qle_bool (-1000 # 1) q && Qle_bool q (2000 # 1) = true) as ->.
      { apply andb_true_iff. rewrite !Qle_bool_iff. lra. }
      assert (inject_Z z < inject_Z (Z.of_nat i + 1))%Q as Hz0
        by (rewrite inject_Z_plus; change (inject_Z 1) with 1%Q; lra).
      assert (inject_Z (Z.of_nat i) < inject_Z (z + 1))%Q as Hz3
        by (rewrite inject_Z_plus; change (inject_Z 1) with 1%Q; lra).
      rewrite <-Zlt_Qlt in Hz0, Hz3.
      f_equal. destruct (Nat.eqb_spec (Z.to_nat z) 200); lia.
Qed.

Lemma bincount_length (indices : list nat) (n : nat) :
  length (bincount indices n) = n.
Proof. unfold bincount. by rewrite length_fmap, length_seq. Qed.

Lemma bincount_lookup (indices : list nat) (n i : nat) :
  (i < n)%nat →
  bincount indices n !! i = Some (length (List.filter (Nat.eqb i) indices)).
Proof.
  intros Hi. unfold bincount.
  by rewrite list_lookup_fmap, lookup_seq_lt.
Qed.

Lemma indicator_sum (j start n : nat) :
  sum_list ((λ i, if (i =? j)%nat then 1 else 0)%nat <$> seq start n) =
  if bool_decide (start ≤ j < start + n)%nat then 1%nat else 0%nat.
Proof.
  revert start. induction n as [|n IH]; intros start; simpl.
  - rewrite bool_decide_eq_false_2; [done|lia].
  - rewrite IH. destruct (Nat.eqb_spec start j) as [->|Hne];
      repeat case_bool_decide; lia.
Qed.

Lemma bincount_cons_split (j : nat) (indices : list nat) (start n : nat) :
  sum_list ((λ i, length (List.filter (Nat.eqb i) (j :: indices)))
              <$> seq start n) =
  (sum_list ((λ i, if (i =? j)%nat then 1 else 0)%nat <$> seq start n)
   + sum_list ((λ i, length (List.filter (Nat.eqb i) indices))
                 <$> seq start n))%nat.
Proof.
  revert start. induction n as [|n IH]; intros start; [done|].
  simpl. rewrite IH. unfold fmap. destruct (start =? j)%nat; simpl; lia.
Qed.

Lemma bincount_sum (indices : list nat) (n : nat) :
  Forall (λ j, j < n)%nat indices →
  sum_list (bincount indices n) = length indices.
Proof.
  induction 1 as [|j indices Hj _ IH]; unfold bincount in *.
  - simpl. by induction (seq 0 n).
  - rewrite bincount_cons_split, indicator_sum, IH.
    rewrite bool_decide_eq_true_2 by lia. done.
Qed.

Lemma bin_index_in_range (x : F) :
  is_Some (bin_index 200 (-1000) 2000 x) ↔ in_range (-1000) 2000 x = true.
Proof.
  unfold bin_index, in_range. destruct (fvalue x) as [q|].
  - destruct (Qle_bool _ q && Qle_bool q _).
    + split; [done|]. intros _. eauto.
    + split; [by intros [? ?]|done].
  - split; [by intros [? ?]|done].
Qed.

Lemma histogram_length (xs : list F) (bins : nat) (lo hi : Z) :
  length (histogram xs bins lo hi) = bins.
Proof. apply bincount_length. Qed.

Lemma histogram_count (xs : list F) (i : nat) :
  (i < 200)%nat →
  histogram xs 200 (-1000) 2000 !! i =
  Some (length (List.filter (in_bin 200 (-1000) 2000 i) xs)).
Proof.
  intros Hi. unfold histogram. rewrite bincount_lookup by done.
  f_equal. induction xs as [|x xs IH]; [done|]. csimpl.
  destruct (bin_index 200 (-1000) 2000 x) as [j|] eqn:Hj.
  - simpl. destruct (Nat.eqb_spec i j) as [<-|Hne].
    + apply bin_index_200 in Hj as [_ ->]. simpl. by rewrite IH.
    + destruct (in_bin 200 (-1000) 2000 i x) eqn:Hin; [|done].
      assert (bin_index 200 (-1000) 2000 x = Some i) as Hi'
        by (by apply bin_index_200).
      congruence.
  - destruct (in_bin 200 (-1000) 2000 i x) eqn:Hin; [|done].
    assert (bin_index 200 (-1000) 2000 x = Some i) as Hi'
      by (by apply bin_index_200).
    congruence.
Qed.

Lemma histogram_total (xs : list F) :
  sum_list (histogram xs 200 (-1000) 2000) =
  length (List.filter (in_range (-1000) 2000) xs).
Proof.
  unfold histogram. rewrite bincount_sum.
  - induction xs as [|x xs IH]; [done|]. csimpl.
    pose proof (bin_index_in_range x) as Hx.
    destruct (bin_index 200 (-1000) 2000 x) as [j|];
      destruct (in_range (-1000) 2000 x); simpl; try by rewrite IH.
    + by destruct Hx as [Hx _]; discriminate Hx.
    + by destruct Hx as [_ [? ?]].
  - induction xs as [|x xs IH]; [constructor|]. csimpl.
    destruct (bin_index 200 (-1000) 2000 x) as [j|] eqn:Hj; [|done].
    constructor; [|done]. by apply bin_index_200 in Hj as [? _].
Qed.

Lemma out_of_range_in_no_bin (x : F) (i : nat) :
  (i < 200)%nat → in_range (-1000) 2000 x = false →
  in_bin 200 (-1000) 2000 i x = false.
Proof.
  intros Hi Hout. apply not_true_iff_false. intros Hin.
  assert (is_Some (bin_index 200 (-1000) 2000 x)) as Hs
    by (exists i; by apply bin_index_200).
  apply bin_index_in_range in Hs. congruence.
Qed.

End HistogramFacts.

(** ** The flattened volume *)

(** Element [j] of slice [i] is in the flattened volume, after all
    elements of the slices before it. *)
Lemma ravel_lookup {A : Type} (volume : list (ndarray A)) (i j : nat)
    (img : ndarray A) (x : A) :
  volume !! i = Some img →
  data img !! j = Some x →
  ravel volume
    !! (sum_list ((λ a, length (data a)) <$> take i volume) + j)%nat
  = Some x.
Proof.
  unfold ravel. revert i.
  induction volume as [|a volume IH]; intros i Hi Hj; [done|].
  destruct i as [|i]; simpl in Hi.
  - injection Hi as ->. csimpl. by apply lookup_app_l_Some.
  - csimpl. rewrite lookup_app_r by lia.
    replace (length (data a)
             + sum_list ((λ a0, length (data a0)) <$> take i volume) + j
             - length (data a))%nat
      with (sum_list ((λ a0, length (data a0)) <$> take i volume) + j)%nat
      by lia.
    by apply IH.
Qed.

Lemma ravel_length {A : Type} (volume : list (ndarray A)) :
  length (ravel volume) = sum_list ((λ a, length (data a)) <$> volume).
Proof.
  unfold ravel. induction volume as [|a volume IH]; csimpl; [done|].
  by rewrite length_app, IH.
Qed.

Lemma ravel_count {A : Type} (P : A → bool) (volume : list (ndarray A)) :
  length (List.filter P (ravel volume))
  = sum_list ((λ a, length (List.filter P (data a))) <$> volume).
Proof.
  unfold ravel. induction volume as [|a volume IH]; csimpl; [done|].
  by rewrite List.filter_app, length_app, IH.
Qed.

Section HistogramClaim.

Context {F : Type} `{FloatOps F}.

(** C7.  Once the volume is assembled the histogram is drawn, whatever
    the data: over all values of the flattened volume, with 200 bins
    over [[-1000, 2000]].  The bins have equal width 15, bin [i] counts
    the values from [-1000 + 15 i] up to, and for the last bin
    including, [-1000 + 15 (i + 1)], and a value outside
    [[-1000, 2000]] is in no bin, so that the counts add up to the
    number of values within the range.  The flattened volume holds every
    element of every slice of the volume, slice after slice, and the
    volume holds the conversion of every kept slice: the count of a bin
    is the sum over the slices of the elements of the slice in the
    bin. *)
Theorem histogram_has_200_bins_over_fixed_range
    (ct_slices : list (Dataset F)) (volume : list (ndarray F))
    (page : list (ui_event F)) :
  assemble ct_slices = Ok volume →
  let counts := histogram (ravel volume) 200 (-1000) 2000 in
  (∃ shown, display ct_slices page =
              (shown ++ [St_pyplot (Hist counts 200 (-1000, 2000)%Z)],
               Ok tt)) ∧
  length counts = 200%nat ∧
  (∀ i, (bin_edge 200 (-1000) 2000 i
         == -1000 + 15 * inject_Z (Z.of_nat i))%Q) ∧
  (∀ i, (i < 200)%nat →
     counts !! i =
     Some (length (List.filter (in_bin 200 (-1000) 2000 i) (ravel volume)))) ∧
  (∀ x i, (i < 200)%nat → in_range (-1000) 2000 x = false →
     in_bin 200 (-1000) 2000 i x = false) ∧
  sum_list counts =
  length (List.filter (in_range (-1000) 2000) (ravel volume)) ∧
  (∃ ordered,
     ordered ≡ₚ ct_slices ∧
     Forall2 (λ s hu, hu_slice s = Ok hu) ordered volume) ∧
  (∀ i j img x,
     volume !! i = Some img → data img !! j = Some x →
     ravel volume
       !! (sum_list ((λ a, length (data a)) <$> take i volume) + j)%nat
     = Some x) ∧
  length (ravel volume) = sum_list ((λ a, length (data a)) <$> volume) ∧
  (∀ i, (i < 200)%nat →
     counts !! i =
     Some (sum_list
             ((λ a, length (List.filter (in_bin 200 (-1000) 2000 i) (data a)))
                <$> volume))) ∧
  sum_list counts =
  sum_list ((λ a, length (List.filter (in_range (-1000) 2000) (data a)))
              <$> volume).
Proof.
  intros Hv counts.
  split; [|split; [|split; [|split; [|split; [|split; [|split; [|split;
    [|split; [|split]]]]]]]]].
  - destruct (display_assembled _ _ page Hv) as (img & _ & ->).
    eexists (page ++ [_; _]). by rewrite <-app_assoc.
  - apply histogram_length.
  - apply bin_edge_200.
  - intros i Hi. by apply histogram_count.
  - intros x i. apply out_of_range_in_no_bin.
  - apply histogram_total.
  - apply assemble_Ok in Hv as (ordered & Hsort & Hhu & _).
    exists ordered. split; [|done].
    by destruct (sorted_props _ _ _ Hsort) as [? _].
  - intros i j img x. apply ravel_lookup.
  - apply ravel_length.
  - intros i Hi. unfold counts. rewrite histogram_count by done.
    by rewrite ravel_count.
  - unfold counts. by rewrite histogram_total, ravel_count.
Qed.

End HistogramClaim.

(** ** The temporary directory *)

Section FileSystemFacts.

Context {blob : Type}.
Implicit Types (es : entries blob) (n name : string) (p : path).

Lemma get_put_eq name (v : node blob) es :
  get_entry name (put_entry name v es) = Some v.
Proof.
  induction es as [|[k w] es IH]; simpl.
  - by rewrite String.eqb_refl.
  - destruct (String.eqb_spec k name) as [->|Hne]; simpl.
    + by rewrite String.eqb_refl.
    + by destruct (String.eqb_spec k name).
Qed.

Lemma get_put_ne name n (v : node blob) es :
  name ≠ n → get_entry n (put_entry name v es) = get_entry n es.
Proof.
  intros Hne. induction es as [|[k w] es IH]; simpl.
  - by destruct (String.eqb_spec name n).
  - destruct (String.eqb_spec k name) as [->|Hk]; simpl.
    + by destruct (String.eqb_spec name n).
    + by rewrite IH.
Qed.

Lemma write_file_nested name d (rest : path) (b : blob) es :
  write_file (name :: d :: rest) b es =
  match get_entry name es with
  | Some (File _) => Raise OSError
  | Some (Dir sub) =>
      sub' ← write_file (d :: rest) b sub; Ok (put_entry name (Dir sub') es)
  | None =>
      sub' ← write_file (d :: rest) b []; Ok (put_entry name (Dir sub') es)
  end.
Proof. done. Qed.

(** A file at the top of the directory stays a file at the top when
    another file is written: it can only be overwritten. *)
Lemma write_file_keeps_file p (b : blob) es es' n :
  write_file p b es = Ok es' →
  (∃ b0, get_entry n es = Some (File b0)) →
  ∃ b1, get_entry n es' = Some (File b1).
Proof.
  intros Hw [b0 Hn].
  destruct p as [|name [|d rest]];
    [done|simpl in Hw|rewrite write_file_nested in Hw].
  - assert (es' = put_entry name (File b) es) as ->.
    { destruct (get_entry name es) as [[?|?]|]; congruence. }
    destruct (decide (name = n)) as [->|Hne].
    + exists b. apply get_put_eq.
    + exists b0. by rewrite get_put_ne.
  - destruct (decide (name = n)) as [->|Hne].
    { by rewrite Hn in Hw. }
    exists b0.
    destruct (get_entry name es) as [[?|sub]|]; [done| |].
    + destruct (write_file (d :: rest) b sub) as [sub'|];
        cbn [mbind result_bind] in Hw; [|done].
      injection Hw as <-. by rewrite get_put_ne.
    + destruct (write_file (d :: rest) b []) as [sub'|];
        cbn [mbind result_bind] in Hw; [|done].
      injection Hw as <-. by rewrite get_put_ne.
Qed.

Lemma make_dirs_keeps_file p es es' n :
  make_dirs p es = Ok es' →
  (∃ b0, get_entry n es = Some (File b0)) →
  ∃ b1, get_entry n es' = Some (File b1).
Proof.
  intros Hm [b0 Hn]. destruct p as [|name rest]; simpl in Hm.
  - injection Hm as <-. eauto.
  - destruct (decide (name = n)) as [->|Hne].
    { by rewrite Hn in Hm. }
    exists b0.
    destruct (get_entry name es) as [[?|sub]|]; [done| |].
    + destruct (make_dirs rest sub) as [sub'|]; simpl in Hm; [|done].
      injection Hm as <-. by rewrite get_put_ne.
    + destruct (make_dirs rest []) as [sub'|]; simpl in Hm; [|done].
      injection Hm as <-. by rewrite get_put_ne.
Qed.

Lemma extractall_keeps_file (members : list (member blob)) es es' n :
  extractall members es = Ok es' →
  (∃ b0, get_entry n es = Some (File b0)) →
  ∃ b1, get_entry n es' = Some (File b1).
Proof.
  unfold extractall. revert es.
  induction members as [|m members IH]; intros es; simpl.
  - intros [= <-]. done.
  - destruct (extract es m) as [es1|] eqn:Hm; simpl; [|done].
    intros Hrest Hn. apply (IH es1); [done|].
    destruct m as [name b|name]; simpl in Hm.
    + by eapply write_file_keeps_file.
    + by eapply make_dirs_keeps_file.
Qed.

(** A name that is looked up as a file is among the file names that
    [os.walk] lists for the directory. *)
Lemma get_entry_filenames n (b : blob) es :
  get_entry n es = Some (File b) → n ∈ filenames es.
Proof.
  unfold filenames. induction es as [|[k w] es IH]; simpl; [done|].
  destruct (String.eqb_spec k n) as [->|Hne].
  - intros [= ->]. simpl. by left.
  - intros Hn. unfold is_dir at 1. simpl.
    destruct w; simpl; [right|]; by apply IH.
Qed.

Lemma walk_head es :
  head (walk [] (Dir es)) = Some ([], dirnames es, filenames es).
Proof. done. Qed.

End FileSystemFacts.

(** ** One run of the cell *)

Section RunFacts.

Context {F : Type} `{FloatOps F} {blob : Type}.
Context (dcmparse : blob → result (Dataset F)).
Context (zip_members : blob → result (list (member blob))).
Implicit Types (up : blob) (tmp : entries blob) (p : path).
Implicit Types (reads : list path) (cts : list (Dataset F)).
Implicit Types (page : list (ui_event F)).

#[local] Abbreviation title := (St_title "CT Slice Viewer + HU Histogram").

Lemma run_no_upload : run dcmparse zip_members None = ([title], Ok tt).
Proof. done. Qed.

(** The outcomes of a run on an upload, by the first step that fails. *)
Lemma run_upload up :
  run dcmparse zip_members (Some up) =
  match save_and_extract zip_members up with
  | Raise e => ([title], Raise e)
  | Ok tmp =>
      match find_ct_slices dcmparse tmp with
      | Raise e => ([title], Raise e)
      | Ok st =>
          match st.2 with
          | [] => ([title; St_error no_ct_message], Ok tt)
          | _ :: _ => display st.2 [title]
          end
      end
  end.
Proof.
  unfold run, script, process, ui_bind, show, lift. simpl.
  destruct (save_and_extract zip_members up) as [tmp|e]; [|done].
  destruct (find_ct_slices dcmparse tmp) as [[reads cts]|e]; [|done].
  by destruct cts.
Qed.

Lemma save_and_extract_keeps_archive up tmp :
  save_and_extract zip_members up = Ok tmp →
  ∃ b, get_entry "uploaded.zip" tmp = Some (File b).
Proof.
  unfold save_and_extract. simpl.
  destruct (zip_members up) as [members|]; simpl; [|done].
  intros Hx. eapply extractall_keeps_file; [done|]. by exists up.
Qed.

#[local] Abbreviation run_cell := (run dcmparse zip_members).
#[local] Abbreviation save_and_extract := (save_and_extract zip_members).
#[local] Abbreviation find_ct_slices := (find_ct_slices dcmparse).
#[local] Abbreviation dcmread := (dcmread dcmparse).

(** The [else] branch appends a line and two figures, or nothing. *)
Lemma display_page cts page page' (outcome : result unit) :
  display cts page = (page', outcome) →
  (page' = page ∧ ∃ e, outcome = Raise e) ∨
  (∃ text img counts,
     page' = page ++ [St_write text;
                      St_pyplot (Imshow img "gray" (-1000) 400);
                      St_pyplot (Hist counts 200 (-1000, 2000)%Z)] ∧
     outcome = Ok tt).
Proof.
  destruct (assemble cts) as [volume|e] eqn:Hv.
  - destruct (display_assembled _ _ page Hv) as (img & _ & ->).
    intros [= <- <-]. right. eauto.
  - rewrite (display_not_assembled _ _ _ Hv). intros [= <- <-]. left. eauto.
Qed.

Lemma dcm_paths_elem_of p (listing : list (path * list string * list string)) :
  p ∈ dcm_paths_of listing ↔
  ∃ root dirs files f,
    (root, dirs, files) ∈ listing ∧ f ∈ files ∧ is_dcm f = true ∧
    p = root ++ [f].
Proof.
  unfold dcm_paths_of. rewrite list_elem_of_bind. split.
  - intros ([[root dirs] files] & Hp & Ht). simpl in Hp.
    apply list_elem_of_fmap in Hp as (f & -> & Hf).
    apply list_elem_of_In, filter_In in Hf as [Hf Hdcm].
    exists root, dirs, files, f. by rewrite list_elem_of_In.
  - intros (root & dirs & files & f & Ht & Hf & Hdcm & ->).
    exists (root, dirs, files). split; [|done]. simpl.
    apply list_elem_of_fmap. exists f. split; [done|].
    apply list_elem_of_In, filter_In. by rewrite <-list_elem_of_In.
Qed.

Lemma not_dcm_uploaded_zip : is_dcm "uploaded.zip" = false.
Proof. done. Qed.

Lemma Forall2_of_total {A B : Type} (R : A → B → Prop) (l : list A) :
  (∀ a, a ∈ l → ∃ b, R a b) → ∃ k, Forall2 R l k.
Proof.
  induction l as [|a l IH]; intros Hl.
  - exists []. constructor.
  - destruct (Hl a) as [b Hb]; [by left|].
    destruct IH as [k Hk]; [intros a' Ha'; apply Hl; by right|].
    exists (b :: k). by constructor.
Qed.

(** Files that all parse and none of which is CT leave [ct_slices]
    empty. *)
Lemma find_ct_slices_none tmp :
  (∀ p, p ∈ dcm_paths tmp →
     ∃ ds m, dcmread tmp p = Ok ds ∧ Modality ds = Some m ∧
             PyStr.upper m ≠ "CT") →
  find_ct_slices tmp = Ok (dcm_paths tmp, []).
Proof.
  intros Hall. apply find_ct_slices_Ok. split; [done|].
  destruct (Forall2_of_total
              (λ p ds, (dcmread tmp p = Ok ds ∧ is_Some (Modality ds)) ∧
                       keeps ds = false) (dcm_paths tmp)) as [parsed Hp].
  { intros p (ds & m & Hds & Hm & Hct)%Hall. exists ds.
    split; [by rewrite Hm; eauto|].
    apply not_true_iff_false. rewrite keeps_spec.
    intros (m' & Hm' & Hct'). congruence. }
  exists parsed. split.
  - eapply Forall2_impl; [done|]. by intros p ds [? _].
  - clear Hall. induction Hp as [|p ds ps dss [_ Hk] _ IH]; [done|].
    simpl. by rewrite Hk.
Qed.

(** C5.  When every .dcm file of a valid archive parses and none has
    Modality CT, and whenever no CT record is kept, the run shows exactly
    the message "No CT DICOM slices found in uploaded ZIP." after the
    title, and neither the image nor the histogram.  It is the only
    message of [st.error]: in any run that shows an error message, the
    message is this one, nothing else is shown, the run ends normally,
    and no CT record was kept; every other failure is a raised
    exception. *)
Theorem no_ct_slices_is_the_only_reported_error up tmp :
  save_and_extract up = Ok tmp →
  (∀ p, p ∈ dcm_paths tmp →
     ∃ ds m, dcmread tmp p = Ok ds ∧ Modality ds = Some m ∧
             PyStr.upper m ≠ "CT") ∨
  (∃ reads, find_ct_slices tmp = Ok (reads, [])) →
  run_cell (Some up) =
    ([title; St_error "No CT DICOM slices found in uploaded ZIP."], Ok tt) ∧
  (∀ upload page outcome text,
     run_cell upload = (page, outcome) →
     St_error text ∈ page →
     text = "No CT DICOM slices found in uploaded ZIP." ∧
     page = [title; St_error text] ∧
     outcome = Ok tt ∧
     ∃ up' tmp' reads,
       upload = Some up' ∧ save_and_extract up' = Ok tmp' ∧
       find_ct_slices tmp' = Ok (reads, [])).
Proof.
  intros Hx Hnone. split.
  - assert (∃ reads, find_ct_slices tmp = Ok (reads, [])) as [reads Hf].
    { destruct Hnone as [Hall|?]; [|done].
      eexists. by apply find_ct_slices_none. }
    by rewrite run_upload, Hx, Hf.
  - clear. intros [up'|] page outcome text Hrun Hin.
    + rewrite run_upload in Hrun.
      destruct (save_and_extract up') as [tmp'|e] eqn:Hx.
      2:{ injection Hrun as <- <-.
          apply list_elem_of_singleton in Hin. done. }
      destruct (find_ct_slices tmp') as [[reads cts]|e] eqn:Hf.
      2:{ injection Hrun as <- <-.
          apply list_elem_of_singleton in Hin. done. }
      destruct cts as [|ds cts]; simpl in Hrun.
      * injection Hrun as <- <-.
        apply elem_of_cons in Hin as [Hin|Hin]; [done|].
        apply list_elem_of_singleton in Hin. injection Hin as ->.
        repeat split; try done. by exists up', tmp', reads.
      * apply display_page in Hrun as [[-> _]|(?&?&?& -> & _)].
        -- apply list_elem_of_singleton in Hin. done.
        -- simpl in Hin. repeat (apply elem_of_cons in Hin as [Hin|Hin];
             [done|]). by apply elem_of_nil in Hin.
    + rewrite run_no_upload in Hrun. injection Hrun as <- <-.
      apply list_elem_of_singleton in Hin. done.
Qed.

(** C6.  Discovery gives to [dcmread] exactly the walked files whose
    names end, whatever the case, in ".dcm" (in walk order), and keeps of
    the records read exactly those whose Modality, uppercased, is "CT";
    what the run then shows is computed from the kept records alone. *)
Theorem only_dcm_files_are_read_and_only_CT_kept up tmp reads cts :
  save_and_extract up = Ok tmp →
  find_ct_slices tmp = Ok (reads, cts) →
  (∀ p, p ∈ reads ↔
     ∃ root dirs files stem ext,
       (root, dirs, files) ∈ walk [] (Dir tmp) ∧ (stem +:+ ext) ∈ files ∧
       PyStr.eq_nocase ext ".dcm" ∧ p = root ++ [stem +:+ ext]) ∧
  reads = dcm_paths tmp ∧
  (∃ parsed,
     Forall2 (λ p ds, dcmread tmp p = Ok ds) reads parsed ∧
     cts = List.filter keeps parsed) ∧
  (∀ ds : Dataset F,
     keeps ds = true ↔ ∃ m, Modality ds = Some m ∧ PyStr.upper m = "CT") ∧
  Forall (λ ds, ∃ m, Modality ds = Some m ∧ PyStr.upper m = "CT") cts ∧
  run_cell (Some up) =
    match cts with
    | [] => ([title; St_error no_ct_message], Ok tt)
    | _ :: _ => display cts [title]
    end.
Proof.
  intros Hx Hf. pose proof Hf as (-> & parsed & Hp & ->)%find_ct_slices_Ok.
  split; [|split; [done|split; [|split; [|split]]]].
  - intros p. unfold dcm_paths. rewrite dcm_paths_elem_of. split.
    + intros (root & dirs & files & f & Ht & Hfiles & Hdcm & ->).
      apply is_dcm_spec in Hdcm as (stem & ext & -> & Hext).
      by exists root, dirs, files, stem, ext.
    + intros (root & dirs & files & stem & ext & Ht & Hfiles & Hext & ->).
      exists root, dirs, files, (stem +:+ ext). repeat split; try done.
      apply is_dcm_spec. eauto.
  - exists parsed. split; [|done].
    eapply Forall2_impl; [done|]. by intros p ds [? _].
  - apply keeps_spec.
  - apply Forall_forall. intros ds Hds%list_elem_of_In%filter_In.
    apply keeps_spec, Hds.
  - by rewrite run_upload, Hx, Hf.
Qed.

(** C10.  The upload is saved as "uploaded.zip" in the directory that
    is extracted into and walked: after extraction it is a file of that
    directory and the walk lists it.  Its name does not pass the filter,
    so no path given to [dcmread] ends in "uploaded.zip", the saved file
    is not read, and every kept record comes from another file. *)
Theorem saved_archive_is_walked_but_never_read up tmp reads cts :
  save_and_extract up = Ok tmp →
  find_ct_slices tmp = Ok (reads, cts) →
  zip_path = ["uploaded.zip"] ∧
  (∃ b, read_file zip_path tmp = Ok b) ∧
  (∃ dirs files rest,
     walk [] (Dir tmp) = ([], dirs, files) :: rest ∧ "uploaded.zip" ∈ files) ∧
  is_dcm "uploaded.zip" = false ∧
  (∀ p, p ∈ reads → last p ≠ Some "uploaded.zip") ∧
  (zip_path ∉ reads) ∧
  (∃ parsed,
     Forall2 (λ p ds, dcmread tmp p = Ok ds) reads parsed ∧
     cts = List.filter keeps parsed).
Proof.
  intros Hx Hf. pose proof Hf as (-> & parsed & Hp & ->)%find_ct_slices_Ok.
  destruct (save_and_extract_keeps_archive _ _ Hx) as [b Hb].
  assert (∀ p, p ∈ dcm_paths tmp → last p ≠ Some "uploaded.zip") as Hlast.
  { intros p (root & dirs & files & f & _ & _ & Hdcm & ->)%dcm_paths_elem_of.
    rewrite last_snoc. intros [= ->]. by rewrite not_dcm_uploaded_zip in Hdcm. }
  split; [done|]. split; [|split; [|split; [done|split; [done|split]]]].
  - exists b. unfold zip_path. simpl. by rewrite Hb.
  - eexists _, _, _. split; [done|]. by eapply get_entry_filenames.
  - intros Hin%Hlast. done.
  - exists parsed. split; [|done].
    eapply Forall2_impl; [done|]. by intros p ds [? _].
Qed.

End RunFacts.

(** ** The properties on concrete uploads *)

Module DemoFacts.
Import Demo.

Example series_runs :
  run_toy (Some series) =
  ([St_title "CT Slice Viewer + HU Histogram";
    St_write "Displaying middle slice #1";
    St_pyplot (Imshow (mk_ndarray (1, 2)%nat [f32 (-984); f32 8976])
                 "gray" (-1000) 400);
    St_pyplot (Hist (histogram (ravel volume) 200 (-1000) 2000)
                 200 (-1000, 2000)%Z)],
   Ok tt).
Proof. vm_compute. reflexivity. Qed.

Example series_volume :
  volume = [mk_ndarray (1, 2)%nat [f32 (-1004); f32 (-1002)];
            mk_ndarray (1, 2)%nat [f32 (-984); f32 8976];
            mk_ndarray (1, 2)%nat [f32 (-964); f32 (-962)]].
Proof. vm_compute. reflexivity. Qed.

Example series_histogram :
  histogram (ravel volume) 200 (-1000) 2000 = [0; 1; 2] ++ replicate 197 0.
Proof. vm_compute. reflexivity. Qed.

Example polyglot_runs :
  run_toy (Some polyglot) =
  ([St_title "CT Slice Viewer + HU Histogram";
    St_error "No CT DICOM slices found in uploaded ZIP."], Ok tt).
Proof. vm_compute. reflexivity. Qed.

Example not_an_archive_raises :
  run_toy (Some (Toy (Some ct1) None)) =
  ([St_title "CT Slice Viewer + HU Histogram"], Raise BadZipFile).
Proof. vm_compute. reflexivity. Qed.

Example float32_rounds_large_pixels : f32 16777217 = f32 16777216.
Proof. vm_compute. reflexivity. Qed.

End DemoFacts.

(** ** The claims on the demo series *)

(** C1 on the three slices numbered 1, 3, 2 in discovery order. *)
Lemma volume_in_InstanceNumber_order_witness :
  assemble Demo.kept = Ok Demo.volume ∧
  ∃ ordered (numbers : list Z),
    ordered ≡ₚ Demo.kept ∧
    Forall2 (λ s hu, hu_slice s = Ok hu) ordered Demo.volume ∧
    Forall2 (λ s n, InstanceNumber s = Some (Some n)) ordered numbers ∧
    StronglySorted Z.le numbers ∧
    (∀ n, filter (λ s, InstanceNumber s = Some (Some n)) ordered =
          filter (λ s, InstanceNumber s = Some (Some n)) Demo.kept) ∧
    (∀ discovered, discovered ≡ₚ Demo.kept →
       ∃ ordered' volume',
         assemble discovered = Ok volume' ∧
         Forall2 (λ s hu, hu_slice s = Ok hu) ordered' volume' ∧
         Forall2 (λ s n, InstanceNumber s = Some (Some n)) ordered' numbers) ∧
    (∀ discovered, discovered ≡ₚ Demo.kept →
       (∀ n, filter (λ s, InstanceNumber s = Some (Some n)) discovered =
             filter (λ s, InstanceNumber s = Some (Some n)) Demo.kept) →
       assemble discovered = Ok Demo.volume).
Proof.
  split; [vm_compute; reflexivity|].
  apply volume_in_InstanceNumber_order. vm_compute; reflexivity.
Defined.

(** C2 on slice 2: slope 2, intercept -1024, pixels 20 and 5000. *)
Lemma hu_value_is_pixel_times_slope_plus_intercept_witness :
  RescaleSlope Demo.ct2 = Some (Demo.f32 2) ∧
  RescaleIntercept Demo.ct2 = Some (Demo.f32 (-1024)) ∧
  pixel_array Demo.ct2 = Some (mk_ndarray (1, 2)%nat [20; 5000]%Z) ∧
  ∃ hu, hu_slice Demo.ct2 = Ok hu ∧
    shape hu = (1, 2)%nat ∧
    length (data hu) = 2%nat ∧
    ∀ i P, [20; 5000]%Z !! i = Some P →
           data hu !! i
           = Some (fadd (fmul (astype_float32 P) (Demo.f32 2))
                        (Demo.f32 (-1024))).
Proof.
  split; [reflexivity|]. split; [reflexivity|]. split; [reflexivity|].
  apply (hu_value_is_pixel_times_slope_plus_intercept Demo.ct2
           (Demo.f32 2) (Demo.f32 (-1024))
           (mk_ndarray (1, 2)%nat [20; 5000]%Z)); reflexivity.
Defined.

(** C3 on a slice without rescale tags, pixels 100 and -7. *)
Lemma absent_rescale_tags_default_to_1_and_0_witness :
  pixel_array Demo.raw = Some (mk_ndarray (1, 2)%nat [100; -7]%Z) ∧
  RescaleSlope Demo.raw = None ∧
  RescaleIntercept Demo.raw = None ∧
  Forall (λ P, fadd (fmul (astype_float32 P) (of_int 1)) (of_int 0)
               = (astype_float32 P : spec_float)) [100; -7]%Z ∧
  hu_slice Demo.raw =
  Ok (arr_map astype_float32 (mk_ndarray (1, 2)%nat [100; -7]%Z)) ∧
  Forall (λ P, (Z.abs P ≤ 16777216)%Z) [100; -7]%Z ∧
  ∃ hu, hu_slice Demo.raw = Ok hu ∧ shape hu = (1, 2)%nat ∧
        equals_raw hu (mk_ndarray (1, 2)%nat [100; -7]%Z).
Proof.
  assert (Forall (λ P, fadd (fmul (astype_float32 P) (of_int 1)) (of_int 0)
                       = (astype_float32 P : spec_float)) [100; -7]%Z)
    as Hunit by (repeat constructor).
  split; [reflexivity|]. split; [reflexivity|]. split; [reflexivity|].
  split; [exact Hunit|].
  destruct (absent_rescale_tags_default_to_1_and_0 Demo.raw
              (mk_ndarray (1, 2)%nat [100; -7]%Z) eq_refl)
    as (_ & _ & Hboth & _ & _ & Hraw).
  assert (Forall (λ P, (Z.abs P ≤ 16777216)%Z) [100; -7]%Z) as Hbound
    by (repeat constructor; lia).
  split; [apply Hboth; [reflexivity|reflexivity|exact Hunit]|].
  split; [exact Hbound|].
  exact (Hraw Demo.raw (mk_ndarray (1, 2)%nat [100; -7]%Z)
           eq_refl eq_refl eq_refl Hbound).
Defined.

(** C4 on the volume of three slices: index 1 is shown. *)
Lemma displayed_slice_is_at_half_the_count_witness :
  assemble Demo.kept = Ok Demo.volume ∧
  (1 ≤ length Demo.volume)%nat ∧
  ∃ img rest,
    Demo.volume !! (length Demo.volume / 2)%nat = Some img ∧
    display Demo.kept [] =
      ([] ++
         St_write ("Displaying middle slice #"
                   +:+ pretty (length Demo.volume / 2)%nat)
         :: St_pyplot (Imshow img "gray" (-1000) 400) :: rest, Ok tt) ∧
    (length Demo.volume = 10%nat → Demo.volume !! 5%nat = Some img) ∧
    (length Demo.volume = 11%nat → Demo.volume !! 5%nat = Some img).
Proof.
  split; [vm_compute; reflexivity|].
  apply displayed_slice_is_at_half_the_count. vm_compute; reflexivity.
Defined.

(** C5 on an archive with one MR slice and a text file. *)
Lemma no_ct_slices_is_the_only_reported_error_witness :
  save_and_extract Demo.toy_members Demo.only_mr = Ok Demo.only_mr_tmp ∧
  (∀ p, p ∈ dcm_paths Demo.only_mr_tmp →
     ∃ ds m, dcmread Demo.toy_dcmparse Demo.only_mr_tmp p = Ok ds ∧
             Modality ds = Some m ∧ PyStr.upper m ≠ "CT") ∧
  Demo.run_toy (Some Demo.only_mr) =
    ([St_title "CT Slice Viewer + HU Histogram";
      St_error "No CT DICOM slices found in uploaded ZIP."], Ok tt) ∧
  (∀ upload page outcome text,
     Demo.run_toy upload = (page, outcome) →
     St_error text ∈ page →
     text = "No CT DICOM slices found in uploaded ZIP." ∧
     page = [St_title "CT Slice Viewer + HU Histogram"; St_error text] ∧
     outcome = Ok tt ∧
     ∃ up' tmp' reads,
       upload = Some up' ∧
       save_and_extract Demo.toy_members up' = Ok tmp' ∧
       find_ct_slices Demo.toy_dcmparse tmp' = Ok (reads, [])).
Proof.
  assert (∀ p, p ∈ dcm_paths Demo.only_mr_tmp →
            ∃ ds m, dcmread Demo.toy_dcmparse Demo.only_mr_tmp p = Ok ds ∧
                    Modality ds = Some m ∧ PyStr.upper m ≠ "CT") as Hnone.
  { intros p Hp. vm_compute in Hp. apply list_elem_of_singleton in Hp as ->.
    exists Demo.mr, "MR".
    split; [vm_compute; reflexivity|split; [reflexivity|discriminate]]. }
  split; [vm_compute; reflexivity|]. split; [exact Hnone|].
  apply (no_ct_slices_is_the_only_reported_error Demo.toy_dcmparse
           Demo.toy_members Demo.only_mr Demo.only_mr_tmp).
  - vm_compute; reflexivity.
  - left. exact Hnone.
Defined.

(** C6 on the series: four .dcm files are read, three CT slices kept. *)
Lemma only_dcm_files_are_read_and_only_CT_kept_witness :
  save_and_extract Demo.toy_members Demo.series = Ok Demo.series_tmp ∧
  find_ct_slices Demo.toy_dcmparse Demo.series_tmp
  = Ok (Demo.series_reads, Demo.kept) ∧
  (∀ p, p ∈ Demo.series_reads ↔
     ∃ root dirs files stem ext,
       (root, dirs, files) ∈ walk [] (Dir Demo.series_tmp) ∧
       (stem +:+ ext) ∈ files ∧
       PyStr.eq_nocase ext ".dcm" ∧ p = root ++ [stem +:+ ext]) ∧
  Demo.series_reads = dcm_paths Demo.series_tmp ∧
  (∃ parsed,
     Forall2 (λ p ds, dcmread Demo.toy_dcmparse Demo.series_tmp p = Ok ds)
       Demo.series_reads parsed ∧
     Demo.kept = List.filter keeps parsed) ∧
  (∀ ds : Dataset spec_float,
     keeps ds = true ↔ ∃ m, Modality ds = Some m ∧ PyStr.upper m = "CT") ∧
  Forall (λ ds, ∃ m, Modality ds = Some m ∧ PyStr.upper m = "CT") Demo.kept ∧
  Demo.run_toy (Some Demo.series) =
    display Demo.kept [St_title "CT Slice Viewer + HU Histogram"].
Proof.
  split; [vm_compute; reflexivity|]. split; [vm_compute; reflexivity|].
  apply (only_dcm_files_are_read_and_only_CT_kept Demo.toy_dcmparse
           Demo.toy_members Demo.series Demo.series_tmp
           Demo.series_reads Demo.kept);
    vm_compute; reflexivity.
Defined.

(** C7 on the volume of the series. *)
Lemma histogram_has_200_bins_over_fixed_range_witness :
  assemble Demo.kept = Ok Demo.volume ∧
  (∃ shown, display Demo.kept [] =
              (shown ++
                 [St_pyplot
                    (Hist (histogram (ravel Demo.volume) 200 (-1000) 2000)
                          200 (-1000, 2000)%Z)],
               Ok tt)) ∧
  length (histogram (ravel Demo.volume) 200 (-1000) 2000) = 200%nat ∧
  (∀ i, (bin_edge 200 (-1000) 2000 i
         == -1000 + 15 * inject_Z (Z.of_nat i))%Q) ∧
  (∀ i, (i < 200)%nat →
     histogram (ravel Demo.volume) 200 (-1000) 2000 !! i =
     Some (length (List.filter (in_bin 200 (-1000) 2000 i)
                     (ravel Demo.volume)))) ∧
  (∀ (x : spec_float) i, (i < 200)%nat → in_range (-1000) 2000 x = false →
     in_bin 200 (-1000) 2000 i x = false) ∧
  sum_list (histogram (ravel Demo.volume) 200 (-1000) 2000) =
  length (List.filter (in_range (-1000) 2000) (ravel Demo.volume)) ∧
  (∃ ordered,
     ordered ≡ₚ Demo.kept ∧
     Forall2 (λ s hu, hu_slice s = Ok hu) ordered Demo.volume) ∧
  (∀ i j img x,
     Demo.volume !! i = Some img → data img !! j = Some x →
     ravel Demo.volume
       !! (sum_list ((λ a, length (data a)) <$> take i Demo.volume) + j)%nat
     = Some x) ∧
  length (ravel Demo.volume)
  = sum_list ((λ a, length (data a)) <$> Demo.volume) ∧
  (∀ i, (i < 200)%nat →
     histogram (ravel Demo.volume) 200 (-1000) 2000 !! i =
     Some (sum_list
             ((λ a, length (List.filter (in_bin 200 (-1000) 2000 i) (data a)))
                <$> Demo.volume))) ∧
  sum_list (histogram (ravel Demo.volume) 200 (-1000) 2000) =
  sum_list ((λ a, length (List.filter (in_range (-1000) 2000) (data a)))
              <$> Demo.volume).
Proof.
  split; [vm_compute; reflexivity|].
  apply (histogram_has_200_bins_over_fixed_range Demo.kept Demo.volume []).
  vm_compute; reflexivity.
Defined.

(** C8 on the series, whose slices all have shape 1 x 2. *)
Lemma stack_succeeds_iff_one_shape_witness :
  Demo.kept ≠ [] ∧
  sorted instance_key Demo.kept = Ok Demo.in_order ∧
  map_each hu_slice Demo.in_order = Ok Demo.arrays ∧
  (assemble Demo.kept = Ok Demo.arrays ↔ one_shape Demo.kept) ∧
  (¬ one_shape Demo.kept →
     assemble Demo.kept =
     Raise (ValueError "all input arrays must have the same shape")) ∧
  Forall2 (λ s hu, hu_slice s = Ok hu) Demo.in_order Demo.arrays.
Proof.
  split; [discriminate|]. split; [vm_compute; reflexivity|].
  split; [vm_compute; reflexivity|].
  apply stack_succeeds_iff_one_shape;
    [discriminate|vm_compute; reflexivity..].
Defined.

(** C9 on the series. *)
Lemma middle_index_within_volume_witness :
  length Demo.kept ≠ 0%nat ∧
  (∀ volume, assemble Demo.kept = Ok volume →
     length volume = length Demo.kept ∧
     (0 ≤ length volume / 2 < length volume)%nat ∧
     ∃ img, getitem volume (length volume / 2) = Ok img) ∧
  (∀ page' e,
     display Demo.kept [St_title "CT Slice Viewer + HU Histogram"]
     = (page', Raise e) →
     e ≠ IndexError).
Proof.
  split; [discriminate|].
  apply middle_index_within_volume. discriminate.
Defined.

(** C10 on an archive that is itself a readable CT DICOM file. *)
Lemma saved_archive_is_walked_but_never_read_witness :
  save_and_extract Demo.toy_members Demo.polyglot = Ok Demo.polyglot_tmp ∧
  find_ct_slices Demo.toy_dcmparse Demo.polyglot_tmp = Ok ([["m.dcm"]], []) ∧
  Demo.toy_dcmparse Demo.polyglot = Ok Demo.ct1 ∧
  zip_path = ["uploaded.zip"] ∧
  (∃ b, read_file zip_path Demo.polyglot_tmp = Ok b) ∧
  (∃ dirs files rest,
     walk [] (Dir Demo.polyglot_tmp) = ([], dirs, files) :: rest ∧
     "uploaded.zip" ∈ files) ∧
  is_dcm "uploaded.zip" = false ∧
  (∀ p, p ∈ [["m.dcm"]] → last p ≠ Some "uploaded.zip") ∧
  (zip_path ∉ [["m.dcm"]]) ∧
  (∃ parsed,
     Forall2 (λ p ds, dcmread Demo.toy_dcmparse Demo.polyglot_tmp p = Ok ds)
       [["m.dcm"]] parsed ∧
     [] = List.filter keeps parsed).
Proof.
  split; [vm_compute; reflexivity|]. split; [vm_compute; reflexivity|].
  split; [reflexivity|].
  apply (saved_archive_is_walked_but_never_read Demo.toy_dcmparse
           Demo.toy_members Demo.polyglot Demo.polyglot_tmp
           [["m.dcm"]] []);
    vm_compute; reflexivity.
Defined.

(** * Further properties of the script *)

(** ** What a run shows *)

Section PageFacts.

Context {F : Type} `{FloatOps F} {blob : Type}.
Context (dcmparse : blob → result (Dataset F)).
Context (zip_members : blob → result (list (member blob))).

#[local] Abbreviation page_title := (St_title "CT Slice Viewer + HU Histogram").

(** X1.  Every run shows the title first, and then all or nothing: the
    title alone when there is no upload or when an exception is raised,
    the title and the error message, or the title, the line with the
    index and the two figures.  A run that raises has shown no figure,
    and no run shows one figure without the other. *)
Theorem run_shows_all_or_nothing (upload : option blob) :
  ∃ page outcome,
    run dcmparse zip_members upload = (page, outcome) ∧
    ((page = [page_title] ∧
      ((upload = None ∧ outcome = Ok tt) ∨
       (is_Some upload ∧ ∃ e, outcome = Raise e))) ∨
     (page = [page_title; St_error "No CT DICOM slices found in uploaded ZIP."]
      ∧ is_Some upload ∧ outcome = Ok tt) ∨
     (∃ text img counts,
        page = [page_title; St_write text;
                St_pyplot (Imshow img "gray" (-1000) 400);
                St_pyplot (Hist counts 200 (-1000, 2000)%Z)] ∧
        is_Some upload ∧ outcome = Ok tt)).
Proof.
  destruct upload as [up|].
  - rewrite run_upload.
    destruct (save_and_extract zip_members up) as [tmp|e].
    2:{ eexists _, _. split; [done|]. left. split; [done|]. right. eauto. }
    destruct (find_ct_slices dcmparse tmp) as [[reads cts]|e].
    2:{ eexists _, _. split; [done|]. left. split; [done|]. right. eauto. }
    destruct cts as [|ds cts]; simpl.
    { eexists _, _. split; [done|]. right. left. eauto. }
    destruct (display (ds :: cts) [page_title]) as [page outcome] eqn:Hd.
    exists page, outcome. split; [done|].
    apply display_page in Hd as [[-> [e ->]]|(text & img & counts & -> & ->)].
    + left. split; [done|]. right. eauto.
    + right. right. exists text, img, counts. eauto.
  - eexists _, _. split; [apply run_no_upload|]. left. split; [done|].
    left. done.
Qed.

End PageFacts.

(** ** Failures of discovery and of assembly *)

Lemma map_each_Raise_same {A B : Type} (f : A → result B) (l : list A)
    (e : exn) :
  (∀ a e', a ∈ l → f a = Raise e' → e' = e) →
  (∃ a, a ∈ l ∧ f a = Raise e) →
  map_each f l = Raise e.
Proof.
  intros Hsame (a & Ha & Hfa).
  destruct (map_each f l) as [bs|e'] eqn:Hl.
  - apply map_each_Forall2 in Hl.
    apply list_elem_of_lookup in Ha as [i Hi].
    destruct (Forall2_lookup_l _ _ _ _ _ Hl Hi) as (b & _ & Hb). congruence.
  - apply map_each_Raise in Hl as (a' & Ha' & Hfa').
    f_equal. by eapply Hsame.
Qed.

(** The first element on which the body raises ends the loop. *)
Lemma map_each_first_Raise {A B : Type} (f : A → result B)
    (pre : list A) (a : A) (post : list A) (e : exn) :
  Forall (λ x, ∃ b, f x = Ok b) pre →
  f a = Raise e →
  map_each f (pre ++ a :: post) = Raise e.
Proof.
  intros Hpre Ha. induction Hpre as [|x pre [b Hb] _ IH]; simpl.
  - by rewrite Ha.
  - rewrite Hb. simpl. by rewrite IH.
Qed.

Section FailureFacts.

Context {F : Type} `{FloatOps F} {blob : Type}.
Context (dcmparse : blob → result (Dataset F)).
Implicit Types (s : Dataset F) (ct_slices : list (Dataset F)).
Implicit Types (page : list (ui_event F)).

(** X2.  Discovery has no handler around [dcmread] and [ds.Modality]: with
    the .dcm files before it read without fault, the first .dcm file in
    walk order that does not parse ends discovery with the exception of
    its [dcmread], and the first that parses but has no Modality with
    [AttributeError], whatever the files after it hold. *)
Theorem first_faulty_dcm_file_ends_discovery (tmp : entries blob)
    (pre post : list path) (p : path) :
  dcm_paths tmp = pre ++ p :: post →
  Forall (λ q, ∃ ds, dcmread dcmparse tmp q = Ok ds ∧ is_Some (Modality ds))
    pre →
  (∀ e, dcmread dcmparse tmp p = Raise e →
        find_ct_slices dcmparse tmp = Raise e) ∧
  (∀ ds, dcmread dcmparse tmp p = Ok ds → Modality ds = None →
         find_ct_slices dcmparse tmp = Raise (AttributeError "Modality")).
Proof.
  intros Hpaths Hpre.
  assert (∃ st, for_each (read_and_keep dcmparse tmp) ([], []) pre = Ok st)
    as [st Hst].
  { destruct (Forall2_of_total
                (λ q ds, dcmread dcmparse tmp q = Ok ds ∧ is_Some (Modality ds))
                pre) as [parsed Hp].
    { rewrite Forall_forall in Hpre. intros q Hq. by apply Hpre. }
    eexists. apply read_each_Ok. eauto. }
  assert (find_ct_slices dcmparse tmp =
          (st' ← read_and_keep dcmparse tmp st p;
           for_each (read_and_keep dcmparse tmp) st' post)) as ->.
  { unfold find_ct_slices. rewrite scan_paths. fold (dcm_paths tmp).
    by rewrite Hpaths, for_each_app, Hst. }
  unfold read_and_keep. split.
  - intros e ->. done.
  - intros ds -> Hm. cbn [mbind result_bind]. by rewrite Hm.
Qed.

(** X3.  The kept slices are ordered before anything is converted, and
    the sort key is computed for the slices in discovery order: the first
    kept slice without a number ends the [else] branch with nothing
    shown, whatever the slices after it, the pixel data and the shapes
    are.  The exception is [AttributeError] when the slice has no
    InstanceNumber, and the [TypeError] of [int(None)] when it has one
    without a value. *)
Theorem missing_InstanceNumber_raises_first (pre post : list (Dataset F))
    s page :
  Forall (λ t, ∃ n, InstanceNumber t = Some (Some n)) pre →
  (InstanceNumber s = None →
     assemble (pre ++ s :: post) = Raise (AttributeError "InstanceNumber") ∧
     display (pre ++ s :: post) page
     = (page, Raise (AttributeError "InstanceNumber"))) ∧
  (InstanceNumber s = Some None →
     assemble (pre ++ s :: post) = Raise TypeError ∧
     display (pre ++ s :: post) page = (page, Raise TypeError)).
Proof.
  intros Hpre.
  assert (∀ e, instance_key s = Raise e →
               assemble (pre ++ s :: post) = Raise e ∧
               display (pre ++ s :: post) page = (page, Raise e)) as Hfirst.
  { intros e He.
    assert (assemble (pre ++ s :: post) = Raise e) as Ha.
    { unfold assemble, sorted.
      rewrite (map_each_first_Raise instance_key pre s post e); [done| |done].
      eapply Forall_impl; [exact Hpre|].
      intros t [n Hn]. exists n. by apply instance_key_Ok. }
    split; [done|]. by apply display_not_assembled. }
  split; intros Hn; apply Hfirst; unfold instance_key; by rewrite Hn.
Qed.

(** X4.  When every kept slice has a number and one has no pixel
    data, the [else] branch raises [AttributeError] for the pixel data and
    shows nothing: the conversion fails before the slices are stacked,
    so a difference of shapes is not reported. *)
Theorem missing_pixel_data_raises_before_stack ct_slices s page :
  Forall (λ t, ∃ n, InstanceNumber t = Some (Some n)) ct_slices →
  s ∈ ct_slices →
  pixel_array s = None →
  assemble ct_slices = Raise (AttributeError "PixelData") ∧
  display ct_slices page = (page, Raise (AttributeError "PixelData")).
Proof.
  intros Hnum Hs Hp.
  assert (assemble ct_slices = Raise (AttributeError "PixelData")) as Ha.
  { unfold assemble.
    destruct (sorted instance_key ct_slices) as [ordered|e] eqn:Hsort.
    - simpl. destruct (sorted_props _ _ _ Hsort) as (Hperm & _).
      rewrite (map_each_Raise_same hu_slice ordered
                 (AttributeError "PixelData")); [done| |].
      + intros a e' _. unfold hu_slice.
        destruct (pixel_array a); simpl; congruence.
      + exists s. split; [by rewrite Hperm|]. unfold hu_slice. by rewrite Hp.
    - exfalso. unfold sorted in Hsort.
      destruct (map_each instance_key ct_slices) as [keys|e'] eqn:Hk;
        [done|].
      apply map_each_Raise in Hk as (a & Ha & Hka).
      rewrite Forall_forall in Hnum. destruct (Hnum a Ha) as [n Hn].
      apply instance_key_Ok in Hn. congruence. }
  split; [done|]. by apply display_not_assembled.
Qed.

End FailureFacts.

(** ** Order of the slices *)

Section OrderFacts.

Context {A : Type}.
Implicit Types (x y : Z * A) (l : list (Z * A)).

Lemma StronglySorted_keys l :
  StronglySorted Z.le (fst <$> l) → StronglySorted key_le l.
Proof.
  induction l as [|x l IH]; [constructor|].
  rewrite fmap_cons. intros [Hx Hl]%StronglySorted_cons.
  constructor; [by apply IH|]. rewrite Forall_fmap in Hx. exact Hx.
Qed.

Lemma filter_none (P : Z * A → Prop) `{!∀ y, Decision (P y)} l :
  Forall (λ y, ¬ P y) l → filter P l = [].
Proof.
  induction 1 as [|y l Hy _ IH]; [done|]. by rewrite filter_cons_False.
Qed.

Lemma filter_all (P : Z * A → Prop) `{!∀ y, Decision (P y)} l :
  Forall P l → filter P l = l.
Proof.
  induction 1 as [|y l Hy _ IH]; [done|].
  rewrite filter_cons_True by done. by rewrite IH.
Qed.

(** An ascending list is left as it is. *)
Lemma sort_by_key_ascending l :
  StronglySorted key_le l → sort_by_key l = l.
Proof.
  intros Hl. apply stable_sorted_unique; [apply sort_by_key_sorted|done| |].
  - apply sort_by_key_Permutation.
  - intros k. apply sort_by_key_stable.
Qed.

(** In an ascending list, fewer than [i + 1] elements are below the
    element at index [i], and more than [i] elements are not above it. *)
Lemma ascending_rank l (i : nat) x :
  StronglySorted key_le l → l !! i = Some x →
  (length (filter (λ y, (y.1 < x.1)%Z) l) ≤ i
   < length (filter (λ y, (y.1 ≤ x.1)%Z) l))%nat.
Proof.
  intros Hl Hi.
  pose proof (take_drop_middle _ _ _ Hi) as Hsplit.
  pose proof (lookup_lt_Some _ _ _ Hi) as Hlt.
  rewrite <-Hsplit in Hl |- *.
  apply StronglySorted_app in Hl as (Hcross & _ & Hright).
  apply StronglySorted_cons in Hright as [Hafter _].
  rewrite !filter_app, !filter_cons, !length_app.
  rewrite decide_False by lia. rewrite decide_True by lia.
  assert (filter (λ y, (y.1 < x.1)%Z) (drop (S i) l) = []) as ->.
  { apply filter_none. eapply Forall_impl; [exact Hafter|].
    unfold key_le. intros y ?. lia. }
  assert (filter (λ y, (y.1 ≤ x.1)%Z) (take i l) = take i l) as ->.
  { apply filter_all. apply Forall_forall. intros y Hy.
    apply (Hcross y x Hy). by left. }
  pose proof (length_filter (λ y, (y.1 < x.1)%Z) (take i l)) as Hle.
  rewrite length_take in *. simpl. lia.
Qed.

End OrderFacts.

Section OrderOfSlices.

Context {F : Type} `{FloatOps F}.
Implicit Types (s : Dataset F) (ct_slices : list (Dataset F)).
Implicit Types (volume : list (ndarray F)).

Lemma all_numbered ct_slices (numbers : list Z) :
  Forall2 (λ s n, InstanceNumber s = Some (Some n)) ct_slices numbers →
  Forall (λ s, ∃ k, instance_key s = Ok k) ct_slices ∧
  fst <$> (decorate instance_key <$> ct_slices) = numbers.
Proof.
  induction 1 as [|s n l ns Hs _ [IH1 IH2]]; [done|]. split.
  - constructor; [|done]. exists n. by apply instance_key_Ok.
  - rewrite !fmap_cons, IH2. f_equal. unfold decorate, instance_key.
    by rewrite Hs.
Qed.

(** X5.  Slices discovered in ascending order of InstanceNumber are not
    reordered: [sorted] returns the list it is given, and the volume has
    the slices in discovery order. *)
Theorem ascending_discovery_order_is_kept ct_slices (numbers : list Z) :
  Forall2 (λ s n, InstanceNumber s = Some (Some n)) ct_slices numbers →
  StronglySorted Z.le numbers →
  sorted instance_key ct_slices = Ok ct_slices ∧
  (∀ volume, assemble ct_slices = Ok volume →
     Forall2 (λ s hu, hu_slice s = Ok hu) ct_slices volume).
Proof.
  intros [Hnum Hkeys]%all_numbered Hasc.
  assert (sorted instance_key ct_slices = Ok ct_slices) as Hsort.
  { apply sorted_Ok. split; [done|].
    rewrite sort_by_key_ascending.
    - by rewrite snd_decorate.
    - apply StronglySorted_keys. by rewrite Hkeys. }
  split; [done|].
  intros volume (ordered & Hsort' & Hhu & _)%assemble_Ok. congruence.
Qed.

Lemma decorate_number s (k : Z) :
  instance_key s = Ok k →
  (decorate instance_key s).1 = k ∧ InstanceNumber s = Some (Some k).
Proof.
  intros Hk. split; [|by apply instance_key_Ok].
  unfold decorate. by rewrite Hk.
Qed.

Lemma count_number_lt (n : Z) ct_slices :
  Forall (λ s, ∃ k, instance_key s = Ok k) ct_slices →
  length (filter (λ y : Z * Dataset F, (y.1 < n)%Z)
            (decorate instance_key <$> ct_slices))
  = length (List.filter (number_lt n) ct_slices).
Proof.
  induction 1 as [|s l [k Hk] _ IH]; [done|].
  rewrite fmap_cons, filter_cons. cbn [List.filter].
  destruct (decorate_number _ _ Hk) as [Hd Hn].
  unfold number_lt at 1. rewrite Hd, Hn.
  case_decide; destruct (Z.ltb_spec k n); simpl; lia.
Qed.

Lemma count_number_le (n : Z) ct_slices :
  Forall (λ s, ∃ k, instance_key s = Ok k) ct_slices →
  length (filter (λ y : Z * Dataset F, (y.1 ≤ n)%Z)
            (decorate instance_key <$> ct_slices))
  = length (List.filter (number_le n) ct_slices).
Proof.
  induction 1 as [|s l [k Hk] _ IH]; [done|].
  rewrite fmap_cons, filter_cons. cbn [List.filter].
  destruct (decorate_number _ _ Hk) as [Hd Hn].
  unfold number_le at 1. rewrite Hd, Hn.
  case_decide; destruct (Z.leb_spec k n); simpl; lia.
Qed.

(** X6.  The slice shown is a median of the kept slices by
    InstanceNumber, in whatever order they were discovered: it is the
    conversion of a kept slice numbered [n] such that at most [N // 2] of
    the [N] kept slices are numbered below [n] and more than [N // 2] are
    numbered at most [n]. *)
Theorem displayed_slice_is_a_median ct_slices volume :
  assemble ct_slices = Ok volume →
  ∃ s n img,
    s ∈ ct_slices ∧ InstanceNumber s = Some (Some n) ∧ hu_slice s = Ok img ∧
    volume !! (length volume / 2)%nat = Some img ∧
    (length (List.filter (number_lt n) ct_slices) ≤ length ct_slices / 2
     < length (List.filter (number_le n) ct_slices))%nat.
Proof.
  intros Hv. destruct (assemble_length _ _ Hv) as [HN Hpos].
  apply assemble_Ok in Hv as (ordered & Hsort & Hhu & _).
  apply sorted_Ok in Hsort as [Hnum ->].
  set (sp := sort_by_key (decorate instance_key <$> ct_slices)) in *.
  assert (keyed instance_key sp) as Hkeyed
    by (by apply keyed_sort, keyed_decorate).
  assert (sp ≡ₚ decorate instance_key <$> ct_slices) as Hperm
    by apply sort_by_key_Permutation.
  assert (length sp = length ct_slices) as Hlen
    by (by rewrite Hperm, length_fmap).
  destruct (lookup_lt_is_Some_2 sp (length ct_slices / 2)) as [x Hx].
  { rewrite Hlen. apply Nat.div_lt; lia. }
  pose proof (ascending_rank _ _ _ (sort_by_key_sorted _) Hx) as Hrank.
  fold sp in Hrank. rewrite !Hperm in Hrank.
  rewrite count_number_le, count_number_lt in Hrank by done.
  assert ((snd <$> sp) !! (length ct_slices / 2)%nat = Some x.2) as Hs
    by (by rewrite list_lookup_fmap, Hx).
  destruct (Forall2_lookup_l _ _ _ _ _ Hhu Hs) as (img & Himg & Hconv).
  exists x.2, x.1, img. split; [|split; [|split; [done|split]]].
  - assert (x ∈ decorate instance_key <$> ct_slices) as Hin
      by (rewrite <-Hperm; by eapply list_elem_of_lookup_2).
    apply list_elem_of_fmap in Hin as (s & -> & Hin). done.
  - apply instance_key_Ok. unfold keyed in Hkeyed.
    rewrite Forall_forall in Hkeyed. apply Hkeyed.
    by eapply list_elem_of_lookup_2.
  - by rewrite HN.
  - lia.
Qed.

End OrderOfSlices.

(** ** The histogram and the order of the slices *)

Lemma concat_Permutation {A : Type} (l l' : list (list A)) :
  l ≡ₚ l' → concat l ≡ₚ concat l'.
Proof.
  induction 1 as [|x l l' _ IH|x y l|l l' l'' _ IH1 _ IH2]; simpl.
  - done.
  - by rewrite IH.
  - rewrite !app_assoc. f_equiv. apply Permutation_app_comm.
  - by etrans.
Qed.

Lemma length_filter_Permutation {A : Type} (f : A → bool) (l l' : list A) :
  l ≡ₚ l' → length (List.filter f l) = length (List.filter f l').
Proof.
  induction 1 as [|x l l' _ IH|x y l|l l' l'' _ IH1 _ IH2]; simpl.
  - done.
  - destruct (f x); simpl; by rewrite IH.
  - destruct (f x), (f y); done.
  - by etrans.
Qed.

Lemma bincount_Permutation (indices indices' : list nat) (n : nat) :
  indices ≡ₚ indices' → bincount indices n = bincount indices' n.
Proof.
  intros Hp. unfold bincount. apply list_fmap_ext. intros _ i _.
  by apply length_filter_Permutation.
Qed.

Section HistogramOrder.

Context {F : Type} `{FloatOps F}.
Implicit Types (s : Dataset F) (ct_slices : list (Dataset F)).
Implicit Types (volume arrays : list (ndarray F)).
Implicit Types (page : list (ui_event F)).

Lemma histogram_Permutation (xs xs' : list F) (bins : nat) (lo hi : Z) :
  xs ≡ₚ xs' → histogram xs bins lo hi = histogram xs' bins lo hi.
Proof.
  intros Hp. unfold histogram. apply bincount_Permutation. by rewrite Hp.
Qed.

Lemma ravel_Permutation volume volume' :
  volume ≡ₚ volume' → ravel volume ≡ₚ ravel volume'.
Proof. intros Hp. unfold ravel. apply concat_Permutation. by rewrite Hp. Qed.

(** X7.  The histogram does not depend on the order of the slices: it is
    the histogram of the conversions of the kept slices taken in
    discovery order, every pixel of every kept slice being binned once,
    and any other discovery order of the same slices gives the same
    counts. *)
Theorem histogram_ignores_slice_order ct_slices volume :
  assemble ct_slices = Ok volume →
  (∃ arrays,
     Forall2 (λ s hu, hu_slice s = Ok hu) ct_slices arrays ∧
     ravel volume ≡ₚ ravel arrays ∧
     ∀ bins lo hi, histogram (ravel volume) bins lo hi
                   = histogram (ravel arrays) bins lo hi) ∧
  (∀ discovered, discovered ≡ₚ ct_slices →
     ∃ volume',
       assemble discovered = Ok volume' ∧
       ∀ bins lo hi, histogram (ravel volume') bins lo hi
                     = histogram (ravel volume) bins lo hi).
Proof.
  intros (ordered & Hsort & Hhu & Hne & Hsh)%assemble_Ok.
  destruct (sorted_props _ _ _ Hsort) as (Hperm & _).
  split.
  - symmetry in Hperm.
    destruct (hu_Forall2_Permutation _ _ _ Hhu Hperm) as (arrays & Ha & Hp).
    exists arrays. split; [done|].
    assert (ravel volume ≡ₚ ravel arrays) as Hr
      by (by apply ravel_Permutation).
    split; [done|]. intros bins lo hi. by apply histogram_Permutation.
  - intros discovered Hd.
    destruct (sorted_keys_independent _ _ _ _ Hsort Hd)
      as (ordered' & Hsort' & Hperm' & _).
    destruct (hu_Forall2_Permutation _ _ _ Hhu Hperm')
      as (volume' & Hhu' & Hvp).
    exists volume'. split.
    + apply assemble_Ok. exists ordered'. repeat split; try done.
      * intros ->. by apply Permutation_nil_l in Hvp.
      * intros a b Ha Hb. rewrite Hvp in Ha, Hb. by apply Hsh.
    + intros bins lo hi. by apply histogram_Permutation, ravel_Permutation.
Qed.

(** X8.  A single kept slice that has an InstanceNumber and pixel data is
    always shown: it is the volume, index 0 is displayed, and the
    histogram is over its HU values. *)
Theorem single_slice_is_shown s (n : Z) (pixels : ndarray Z) page :
  InstanceNumber s = Some (Some n) →
  pixel_array s = Some pixels →
  ∃ hu,
    hu_slice s = Ok hu ∧
    assemble [s] = Ok [hu] ∧
    display [s] page =
      (page ++ [St_write "Displaying middle slice #0";
                St_pyplot (Imshow hu "gray" (-1000) 400);
                St_pyplot (Hist (histogram (data hu) 200 (-1000) 2000)
                             200 (-1000, 2000)%Z)],
       Ok tt).
Proof.
  intros Hn Hp.
  destruct (hu_slice s) as [hu|e] eqn:Hhu.
  2:{ unfold hu_slice in Hhu. by rewrite Hp in Hhu. }
  exists hu. split; [done|].
  assert (assemble [s] = Ok [hu]) as Ha.
  { unfold assemble, sorted. simpl. unfold instance_key at 1. rewrite Hn.
    simpl. by rewrite Hhu. }
  split; [done|].
  destruct (display_assembled _ _ page Ha) as (img & Himg & ->).
  injection Himg as <-. unfold ravel. simpl. by rewrite app_nil_r.
Qed.

End HistogramOrder.

(** ** Saving the upload inside the directory it is extracted into *)

Section IngestionFacts.

Context {blob : Type}.
Implicit Types (es : entries blob) (p : path) (m : member blob).

Lemma write_file_Raise p (b : blob) es (e : exn) :
  write_file p b es = Raise e → e = OSError.
Proof.
  revert es. induction p as [|name rest IH]; intros es.
  - simpl. congruence.
  - destruct rest as [|d rest].
    + simpl. destruct (get_entry name es) as [[?|?]|]; congruence.
    + rewrite write_file_nested.
      destruct (get_entry name es) as [[?|sub]|]; [congruence| |].
      * destruct (write_file (d :: rest) b sub) as [?|e'] eqn:Hw;
          cbn [mbind result_bind]; [done|].
        intros [= <-]. by eapply IH.
      * destruct (write_file (d :: rest) b []) as [?|e'] eqn:Hw;
          cbn [mbind result_bind]; [done|].
        intros [= <-]. by eapply IH.
Qed.

Lemma make_dirs_Raise p es (e : exn) :
  make_dirs p es = Raise e → e = OSError.
Proof.
  revert es. induction p as [|name rest IH]; intros es; simpl; [done|].
  destruct (get_entry name es) as [[?|sub]|]; [congruence| |].
  - destruct (make_dirs rest sub) as [?|e'] eqn:Hm; simpl; [done|].
    intros [= <-]. by eapply IH.
  - destruct (make_dirs rest []) as [?|e'] eqn:Hm; simpl; [done|].
    intros [= <-]. by eapply IH.
Qed.

Lemma extract_Raise es m (e : exn) : extract es m = Raise e → e = OSError.
Proof.
  destruct m; simpl; [apply write_file_Raise|apply make_dirs_Raise].
Qed.

Lemma extract_keeps_file es es' m (n : string) :
  extract es m = Ok es' →
  (∃ b0, get_entry n es = Some (File b0)) →
  ∃ b1, get_entry n es' = Some (File b1).
Proof.
  destruct m; simpl;
    [apply write_file_keeps_file|apply make_dirs_keeps_file].
Qed.

Lemma extract_under_archive es m :
  under_archive m = true →
  (∃ b0, get_entry "uploaded.zip" es = Some (File b0)) →
  extract es m = Raise OSError.
Proof.
  intros Hm [b0 Hb]. destruct m as [[|name [|d rest]] b|[|name rest]];
    try done; simpl in Hm; apply String.eqb_eq in Hm as ->.
  - cbn [extract]. rewrite write_file_nested. by rewrite Hb.
  - simpl. by rewrite Hb.
Qed.

Lemma extractall_under_archive (members : list (member blob)) es :
  (∃ b0, get_entry "uploaded.zip" es = Some (File b0)) →
  (∃ m, m ∈ members ∧ under_archive m = true) →
  extractall members es = Raise OSError.
Proof.
  unfold extractall. revert es.
  induction members as [|m0 members IH]; intros es Hes (m & Hin & Hm).
  - by apply elem_of_nil in Hin.
  - cbn [for_each]. destruct (extract es m0) as [es1|e] eqn:H0.
    + cbn [mbind result_bind]. apply IH.
      * by eapply extract_keeps_file.
      * apply elem_of_cons in Hin as [->|Hin]; [|eauto].
        rewrite extract_under_archive in H0 by done. done.
    + apply extract_Raise in H0 as ->. done.
Qed.

(** The loop stops at an element on which the body raises. *)
Lemma for_each_Raise {A S : Type} (body : S → A → result S) (s : S)
    (l : list A) (e : exn) :
  for_each body s l = Raise e → ∃ s' a, a ∈ l ∧ body s' a = Raise e.
Proof.
  revert s. induction l as [|a l IH]; intros s; simpl; [done|].
  destruct (body s a) as [s1|e'] eqn:Hb; simpl.
  - intros (s' & a' & Ha' & Hb')%IH. exists s', a'. split; [by right|done].
  - intros [= ->]. exists s, a. split; [by left|done].
Qed.

(** A member that is not written over the saved archive leaves it as
    it is. *)
Lemma extract_keeps_archive (m : member blob) es es' (b0 : blob) :
  over_archive m = false →
  extract es m = Ok es' →
  get_entry "uploaded.zip" es = Some (File b0) →
  get_entry "uploaded.zip" es' = Some (File b0).
Proof.
  intros Hm Hx Hn. destruct m as [q b|q]; simpl in Hm, Hx.
  - destruct q as [|name [|d rest]];
      [done|simpl in Hx|rewrite write_file_nested in Hx].
    + destruct (String.eqb_spec name "uploaded.zip") as [->|Hne]; [done|].
      assert (es' = put_entry name (File b) es) as ->
        by (destruct (get_entry name es) as [[?|?]|]; congruence).
      by rewrite get_put_ne.
    + destruct (decide (name = "uploaded.zip")) as [->|Hne].
      { by rewrite Hn in Hx. }
      destruct (get_entry name es) as [[?|sub]|]; [done| |].
      * destruct (write_file (d :: rest) b sub) as [sub'|];
          cbn [mbind result_bind] in Hx; [|done].
        injection Hx as <-. by rewrite get_put_ne.
      * destruct (write_file (d :: rest) b []) as [sub'|];
          cbn [mbind result_bind] in Hx; [|done].
        injection Hx as <-. by rewrite get_put_ne.
  - destruct q as [|name rest]; simpl in Hx.
    { by injection Hx as <-. }
    destruct (decide (name = "uploaded.zip")) as [->|Hne].
    { by rewrite Hn in Hx. }
    destruct (get_entry name es) as [[?|sub]|]; [done| |].
    + destruct (make_dirs rest sub) as [sub'|]; simpl in Hx; [|done].
      injection Hx as <-. by rewrite get_put_ne.
    + destruct (make_dirs rest []) as [sub'|]; simpl in Hx; [|done].
      injection Hx as <-. by rewrite get_put_ne.
Qed.

Lemma extractall_keeps_archive (members : list (member blob)) es es'
    (b0 : blob) :
  Forall (λ m, over_archive m = false) members →
  extractall members es = Ok es' →
  get_entry "uploaded.zip" es = Some (File b0) →
  get_entry "uploaded.zip" es' = Some (File b0).
Proof.
  unfold extractall. intros Hall. revert es.
  induction Hall as [|m members Hm _ IH]; intros es; simpl.
  - by intros [= <-].
  - destruct (extract es m) as [es1|] eqn:Hx; simpl; [|done].
    intros Hrest Hn. apply (IH es1); [done|].
    by eapply extract_keeps_archive.
Qed.

End IngestionFacts.

Section IngestionClaims.

Context {F : Type} `{FloatOps F} {blob : Type}.
Context (dcmparse : blob → result (Dataset F)).
Context (zip_members : blob → result (list (member blob))).


(** X10.  An upload that [ZipFile] does not open ends the run with the
    exception of [ZipFile], after the title and before anything is
    extracted or read, also when the upload is a readable DICOM file. *)
Theorem upload_that_is_no_archive_raises (up : blob) (e : exn) :
  zip_members up = Raise e →
  save_and_extract zip_members up = Raise e ∧
  run dcmparse zip_members (Some up) =
    ([St_title "CT Slice Viewer + HU Histogram"], Raise e).
Proof.
  intros Hzip.
  assert (save_and_extract zip_members up = Raise e) as Hx.
  { unfold save_and_extract. simpl. by rewrite Hzip. }
  split; [done|]. by rewrite run_upload, Hx.
Qed.

End IngestionClaims.

(** ** Every file that the walk lists can be read *)

Section TreeFacts.

Context {blob : Type}.
Implicit Types (es : entries blob) (n : node blob) (p : path).

Lemma node_ind' (P : node blob → Prop) :
  (∀ b, P (File b)) →
  (∀ es, Forall (λ e, P e.2) es → P (Dir es)) →
  ∀ n, P n.
Proof.
  intros Hfile Hdir. fix IH 1. intros [b|es]; [apply Hfile|].
  apply Hdir. induction es as [|[k v] es IHes]; constructor; [apply IH|done].
Qed.

Lemma unique_names_Dir es :
  unique_names (Dir es) ↔
  NoDup (fst <$> es) ∧ Forall (λ e, unique_names e.2) es.
Proof.
  cbn [unique_names]. apply and_iff_compat_l.
  induction es as [|[k v] es IH]; [by split; [constructor|]|].
  rewrite Forall_cons, <-IH. done.
Qed.

Lemma put_entry_names name (v : node blob) es :
  fst <$> put_entry name v es =
  if decide (name ∈ fst <$> es) then fst <$> es else (fst <$> es) ++ [name].
Proof.
  induction es as [|[k w] es IH]; [done|]. cbn [put_entry].
  destruct (String.eqb_spec k name) as [->|Hne].
  - rewrite decide_True by (rewrite fmap_cons; by left). done.
  - rewrite !fmap_cons, IH. cbn [fst].
    destruct (decide (name ∈ fst <$> es)) as [Hin|Hin].
    + rewrite decide_True by (by right). done.
    + rewrite decide_False; [done|].
      intros [?|?]%elem_of_cons; [congruence|done].
Qed.

Lemma put_entry_NoDup name (v : node blob) es :
  NoDup (fst <$> es) → NoDup (fst <$> put_entry name v es).
Proof.
  intros Hnd. rewrite put_entry_names. case_decide; [done|].
  apply NoDup_app. split; [done|]. split; [|apply NoDup_singleton].
  intros x Hx ->%list_elem_of_singleton. done.
Qed.

Lemma put_entry_Forall (P : string * node blob → Prop) name
    (v : node blob) es :
  P (name, v) → Forall P es → Forall P (put_entry name v es).
Proof.
  intros Hv. induction 1 as [|[k w] es Hk Hes IH]; cbn [put_entry].
  - by constructor.
  - destruct (String.eqb k name); by constructor.
Qed.

Lemma put_entry_unique name (v : node blob) es :
  unique_names v → unique_names (Dir es) →
  unique_names (Dir (put_entry name v es)).
Proof.
  rewrite !unique_names_Dir. intros Hv [Hnd Hall]. split.
  - by apply put_entry_NoDup.
  - by apply put_entry_Forall.
Qed.

Lemma get_entry_elem_of name (v : node blob) es :
  get_entry name es = Some v → (name, v) ∈ es.
Proof.
  induction es as [|[k w] es IH]; simpl; [done|].
  destruct (String.eqb_spec k name) as [->|Hne].
  - intros [= ->]. by left.
  - intros Hv. right. by apply IH.
Qed.

Lemma elem_of_get_entry name (v : node blob) es :
  NoDup (fst <$> es) → (name, v) ∈ es → get_entry name es = Some v.
Proof.
  induction es as [|[k w] es IH]; [by intros _ ?%elem_of_nil|].
  rewrite fmap_cons. intros [Hk Hnd]%NoDup_cons Hin. simpl.
  apply elem_of_cons in Hin as [[= <- <-]|Hin].
  - by rewrite String.eqb_refl.
  - destruct (String.eqb_spec k name) as [->|Hne]; [|by apply IH].
    destruct Hk. apply list_elem_of_fmap. by exists (name, v).
Qed.

Lemma get_entry_unique name (v : node blob) es :
  unique_names (Dir es) → get_entry name es = Some v → unique_names v.
Proof.
  intros [_ Hall]%unique_names_Dir Hv%get_entry_elem_of.
  rewrite Forall_forall in Hall. by apply (Hall (name, v)).
Qed.

Lemma unique_names_nil : unique_names (Dir ([] : entries blob)).
Proof. apply unique_names_Dir. split; constructor. Qed.

Lemma write_file_unique p (b : blob) es es' :
  write_file p b es = Ok es' →
  unique_names (Dir es) → unique_names (Dir es').
Proof.
  revert es es'. induction p as [|name rest IH]; intros es es'; [done|].
  destruct rest as [|d rest].
  - simpl. intros Hw Hes.
    assert (es' = put_entry name (File b) es) as ->
      by (destruct (get_entry name es) as [[?|?]|]; congruence).
    by apply put_entry_unique.
  - rewrite write_file_nested. intros Hw Hes.
    destruct (get_entry name es) as [[?|sub]|] eqn:Hg; [done| |].
    + destruct (write_file (d :: rest) b sub) as [sub'|] eqn:Hsub;
        cbn [mbind result_bind] in Hw; [|done].
      injection Hw as <-. apply put_entry_unique; [|done].
      eapply IH; [done|]. by eapply get_entry_unique.
    + destruct (write_file (d :: rest) b []) as [sub'|] eqn:Hsub;
        cbn [mbind result_bind] in Hw; [|done].
      injection Hw as <-. apply put_entry_unique; [|done].
      eapply IH; [done|]. apply unique_names_nil.
Qed.

Lemma make_dirs_unique p es es' :
  make_dirs p es = Ok es' →
  unique_names (Dir es) → unique_names (Dir es').
Proof.
  revert es es'. induction p as [|name rest IH]; intros es es'; simpl.
  - by intros [= <-].
  - intros Hm Hes.
    destruct (get_entry name es) as [[?|sub]|] eqn:Hg; [done| |].
    + destruct (make_dirs rest sub) as [sub'|] eqn:Hsub; simpl in Hm; [|done].
      injection Hm as <-. apply put_entry_unique; [|done].
      eapply IH; [done|]. by eapply get_entry_unique.
    + destruct (make_dirs rest []) as [sub'|] eqn:Hsub; simpl in Hm; [|done].
      injection Hm as <-. apply put_entry_unique; [|done].
      eapply IH; [done|]. apply unique_names_nil.
Qed.

Lemma extractall_unique (members : list (member blob)) es es' :
  extractall members es = Ok es' →
  unique_names (Dir es) → unique_names (Dir es').
Proof.
  unfold extractall. revert es.
  induction members as [|m members IH]; intros es; simpl.
  - by intros [= <-].
  - destruct (extract es m) as [es1|] eqn:Hm; simpl; [|done].
    intros Hrest Hes. apply (IH es1); [done|].
    destruct m; simpl in Hm;
      [by eapply write_file_unique|by eapply make_dirs_unique].
Qed.

Lemma walk_Dir (root : path) es :
  walk root (Dir es) =
  (root, dirnames es, filenames es)
  :: (e ← es; walk (root ++ [e.1]) e.2).
Proof.
  cbn [walk]. f_equal. induction es as [|[k v] es IH]; [done|].
  by rewrite IH.
Qed.

Lemma read_file_below name (rest : path) es :
  rest ≠ [] →
  read_file (name :: rest) es =
  match get_entry name es with
  | Some (Dir sub) => read_file rest sub
  | _ => Raise OSError
  end.
Proof. by destruct rest. Qed.

Lemma filenames_elem_of (f : string) es :
  f ∈ filenames es → ∃ b, (f, File b) ∈ es.
Proof.
  unfold filenames. intros ([k v] & -> & Hin)%list_elem_of_fmap.
  apply list_elem_of_In, filter_In in Hin as [Hin Hfile].
  apply list_elem_of_In in Hin. destruct v as [b|?]; [|done]. eauto.
Qed.

(** In a tree without duplicate names, a file that the walk lists is
    read back from the path the script joins for it. *)
Lemma walk_readable n :
  unique_names n →
  ∀ root r dirs files f,
    (r, dirs, files) ∈ walk root n → f ∈ files →
    ∃ rel b, r = root ++ rel ∧
             match n with
             | Dir es => read_file (rel ++ [f]) es = Ok b
             | File _ => False
             end.
Proof.
  induction n as [b|es IH] using node_ind'.
  - intros _ root r dirs files f Hin. by apply elem_of_nil in Hin.
  - intros Hes root r dirs files f Hin Hf.
    pose proof Hes as [Hnd Hall]%unique_names_Dir.
    rewrite walk_Dir in Hin. apply elem_of_cons in Hin as [[= -> -> ->]|Hin].
    + apply filenames_elem_of in Hf as [b Hb].
      exists [], b. split; [by rewrite app_nil_r|]. simpl.
      by rewrite (elem_of_get_entry _ _ _ Hnd Hb).
    + apply list_elem_of_bind in Hin as ([k v] & Hin & Hkv). simpl in Hin.
      rewrite Forall_forall in IH, Hall.
      destruct (IH _ Hkv (Hall _ Hkv) _ _ _ _ _ Hin Hf)
        as (rel & b & -> & Hread).
      destruct v as [?|sub]; [done|].
      exists (k :: rel), b. split; [by rewrite <-app_assoc|].
      change ((k :: rel) ++ [f]) with (k :: (rel ++ [f])).
      rewrite read_file_below by (by destruct rel).
      by rewrite (elem_of_get_entry _ _ _ Hnd Hkv).
Qed.

End TreeFacts.

Section ReadableClaims.

Context {F : Type} `{FloatOps F} {blob : Type}.
Context (dcmparse : blob → result (Dataset F)).
Context (zip_members : blob → result (list (member blob))).

(** After the upload is saved and extracted no directory has two
    entries of one name. *)
Lemma save_and_extract_unique (up : blob) (tmp : entries blob) :
  save_and_extract zip_members up = Ok tmp → unique_names (Dir tmp).
Proof.
  intros Hx. unfold save_and_extract in Hx. simpl in Hx.
  destruct (zip_members up) as [members|]; simpl in Hx; [|done].
  eapply extractall_unique; [done|].
  apply unique_names_Dir. split; [apply NoDup_singleton|].
  by repeat constructor.
Qed.

(** X11.  Every .dcm path that discovery joins from the walk of the
    extracted directory is a file that can be read, so that [dcmread] on
    it is the DICOM parser on the bytes of that file: discovery does not
    fail for a file that is not there.  When discovery fails it fails at
    such a file: with the exception of the parser on the bytes of that
    file, or with [AttributeError] when the record parsed from them has
    no Modality. *)
Theorem walked_files_can_be_read (up : blob) (tmp : entries blob) :
  save_and_extract zip_members up = Ok tmp →
  (∀ p, p ∈ dcm_paths tmp →
        ∃ b, read_file p tmp = Ok b ∧ dcmread dcmparse tmp p = dcmparse b) ∧
  (∀ e, find_ct_slices dcmparse tmp = Raise e →
        ∃ p b,
          p ∈ dcm_paths tmp ∧ read_file p tmp = Ok b ∧
          dcmread dcmparse tmp p = dcmparse b ∧
          (dcmparse b = Raise e ∨
           ∃ ds, dcmparse b = Ok ds ∧ Modality ds = None ∧
                 e = AttributeError "Modality")).
Proof.
  intros Hx. pose proof (save_and_extract_unique _ _ Hx) as Huniq.
  assert (∀ p, p ∈ dcm_paths tmp →
               ∃ b, read_file p tmp = Ok b ∧
                    dcmread dcmparse tmp p = dcmparse b) as Hread.
  { intros p (root & dirs & files & f & Ht & Hf & _ & ->)%dcm_paths_elem_of.
    destruct (walk_readable _ Huniq _ _ _ _ _ Ht Hf) as (rel & b & -> & Hb).
    exists b. split; [done|]. unfold dcmread.
    change ([] ++ rel) with rel. by rewrite Hb. }
  split; [done|].
  intros e Hfind. unfold find_ct_slices in Hfind.
  rewrite scan_paths in Hfind. fold (dcm_paths tmp) in Hfind.
  apply for_each_Raise in Hfind as (st & p & Hp & Hrk).
  destruct (Hread p Hp) as (b & Hb & Hdcm).
  exists p, b. split; [done|]. split; [done|]. split; [done|].
  unfold read_and_keep in Hrk. rewrite Hdcm in Hrk.
  destruct (dcmparse b) as [ds|e'] eqn:Hparse; cbn [mbind result_bind] in Hrk.
  - right. exists ds. split; [done|].
    destruct (Modality ds) as [m|]; simpl in Hrk.
    + by destruct (is_CT m).
    + split; [done|]. congruence.
  - left. congruence.
Qed.

End ReadableClaims.

(** ** Case of file names and of the Modality *)

Lemma upper_lower_ascii (c : ascii) :
  PyStr.upper_ascii (PyStr.lower_ascii c) = PyStr.upper_ascii c.
Proof.
  destruct c as [[] [] [] [] [] [] [] []]; reflexivity.
Qed.

Lemma upper_of_lower (s t : string) :
  PyStr.lower s = PyStr.lower t → PyStr.upper s = PyStr.upper t.
Proof.
  revert t. induction s as [|a s IH]; intros [|b t]; try done.
  intros Heq.
  change (String (PyStr.lower_ascii a) (PyStr.lower s) =
          String (PyStr.lower_ascii b) (PyStr.lower t)) in Heq.
  injection Heq as Hab Hst.
  change (String (PyStr.upper_ascii a) (PyStr.upper s) =
          String (PyStr.upper_ascii b) (PyStr.upper t)).
  rewrite (IH _ Hst). f_equal.
  by rewrite <-(upper_lower_ascii a), Hab, upper_lower_ascii.
Qed.

(** X12.  The two tests of discovery do not see case: names that differ
    in case only are both read or both skipped, and Modality values that
    differ in case only are both kept or both dropped. *)
Theorem tests_do_not_see_case (s t : string) :
  PyStr.eq_nocase s t →
  is_dcm s = is_dcm t ∧ is_CT s = is_CT t.
Proof.
  intros Heq%PyStrFacts.eq_nocase_lower. split.
  - unfold is_dcm. by rewrite Heq.
  - unfold is_CT. by rewrite (upper_of_lower _ _ Heq).
Qed.

(** ** What is extracted is what is read *)

Section RoundTrip.

Context {F : Type} `{FloatOps F} {blob : Type}.
Context (dcmparse : blob → result (Dataset F)).
Context (zip_members : blob → result (list (member blob))).
Implicit Types (es : entries blob) (p : path).

Lemma write_then_read p (b : blob) es es' :
  write_file p b es = Ok es' → read_file p es' = Ok b.
Proof.
  revert es es'. induction p as [|name rest IH]; intros es es'; [done|].
  destruct rest as [|d rest].
  - simpl. intros Hw.
    assert (es' = put_entry name (File b) es) as ->
      by (destruct (get_entry name es) as [[?|?]|]; congruence).
    by rewrite get_put_eq.
  - rewrite write_file_nested. intros Hw.
    rewrite read_file_below by done.
    destruct (get_entry name es) as [[?|sub]|]; [done| |].
    + destruct (write_file (d :: rest) b sub) as [sub'|] eqn:Hsub;
        cbn [mbind result_bind] in Hw; [|done].
      injection Hw as <-. rewrite get_put_eq. by eapply IH.
    + destruct (write_file (d :: rest) b []) as [sub'|] eqn:Hsub;
        cbn [mbind result_bind] in Hw; [|done].
      injection Hw as <-. rewrite get_put_eq. by eapply IH.
Qed.

(** X13.  When no member of the archive is written over the saved
    archive, a successful extraction leaves "uploaded.zip" as it was
    uploaded, and the file that the archive extracts last is read back as
    the archive holds it: [dcmread] on its path parses the bytes of that
    member, whatever the members before it wrote there. *)
Theorem last_member_is_read_as_extracted (up : blob)
    (members : list (member blob)) (p : path) (b : blob)
    (tmp : entries blob) :
  zip_members up = Ok (members ++ [MFile p b]) →
  Forall (λ m, over_archive m = false) (members ++ [MFile p b]) →
  save_and_extract zip_members up = Ok tmp →
  read_file zip_path tmp = Ok up ∧
  read_file p tmp = Ok b ∧
  dcmread dcmparse tmp p = dcmparse b.
Proof.
  intros Hzip Hnot Hx. unfold save_and_extract in Hx. simpl in Hx.
  rewrite Hzip in Hx. simpl in Hx. split.
  - unfold zip_path. simpl.
    by rewrite (extractall_keeps_archive _ _ _ up Hnot Hx).
  - unfold extractall in Hx. rewrite for_each_app in Hx.
    destruct (for_each extract _ members) as [es1|]; simpl in Hx; [|done].
    destruct (write_file p b es1) as [es2|] eqn:Hw; simpl in Hx; [|done].
    injection Hx as <-.
    assert (read_file p es2 = Ok b) as Hr by (by eapply write_then_read).
    split; [done|]. unfold dcmread. by rewrite Hr.
Qed.

End RoundTrip.

(** ** The further properties on concrete uploads *)

(** X2 on an archive whose second .dcm file does not parse. *)
Lemma first_faulty_dcm_file_ends_discovery_witness :
  dcm_paths MoreDemo.broken_tmp = [["a.dcm"]] ++ ["b.dcm"] :: [["c.dcm"]] ∧
  Forall (λ q, ∃ ds, dcmread Demo.toy_dcmparse MoreDemo.broken_tmp q = Ok ds ∧
                     is_Some (Modality ds)) [["a.dcm"]] ∧
  dcmread Demo.toy_dcmparse MoreDemo.broken_tmp ["b.dcm"]
  = Raise InvalidDicomError ∧
  find_ct_slices Demo.toy_dcmparse MoreDemo.broken_tmp
  = Raise InvalidDicomError.
Proof.
  assert (Forall (λ q, ∃ ds, dcmread Demo.toy_dcmparse MoreDemo.broken_tmp q
                             = Ok ds ∧ is_Some (Modality ds)) [["a.dcm"]])
    as Hpre.
  { repeat constructor. exists Demo.mr. split; [reflexivity|]. by eexists. }
  split; [reflexivity|]. split; [exact Hpre|]. split; [reflexivity|].
  destruct (first_faulty_dcm_file_ends_discovery Demo.toy_dcmparse
              MoreDemo.broken_tmp [["a.dcm"]] [["c.dcm"]] ["b.dcm"]
              eq_refl Hpre) as [Hraise _].
  apply Hraise. reflexivity.
Defined.

(** X3 on a slice without InstanceNumber, and on one whose
    InstanceNumber has no value, each after a good slice and before a
    faulty one. *)
Lemma missing_InstanceNumber_raises_first_witness :
  Forall (λ t : Dataset spec_float, ∃ n, InstanceNumber t = Some (Some n))
    [Demo.ct1] ∧
  InstanceNumber MoreDemo.unnumbered = None ∧
  InstanceNumber MoreDemo.unvalued = Some None ∧
  (assemble ([Demo.ct1] ++ MoreDemo.unnumbered :: [MoreDemo.unvalued])
   = Raise (AttributeError "InstanceNumber") ∧
   display ([Demo.ct1] ++ MoreDemo.unnumbered :: [MoreDemo.unvalued]) []
   = ([], Raise (AttributeError "InstanceNumber"))) ∧
  (assemble ([Demo.ct1] ++ MoreDemo.unvalued :: [MoreDemo.unnumbered])
   = Raise TypeError ∧
   display ([Demo.ct1] ++ MoreDemo.unvalued :: [MoreDemo.unnumbered]) []
   = ([], Raise TypeError)).
Proof.
  assert (Forall (λ t : Dataset spec_float,
                    ∃ n, InstanceNumber t = Some (Some n)) [Demo.ct1])
    as Hpre by (repeat constructor; by eexists).
  split; [exact Hpre|]. split; [reflexivity|]. split; [reflexivity|]. split.
  - exact (proj1 (missing_InstanceNumber_raises_first
                    [Demo.ct1] [MoreDemo.unvalued] MoreDemo.unnumbered []
                    Hpre) eq_refl).
  - exact (proj2 (missing_InstanceNumber_raises_first
                    [Demo.ct1] [MoreDemo.unnumbered] MoreDemo.unvalued []
                    Hpre) eq_refl).
Defined.

(** X4 on a numbered slice without pixel data next to a good one. *)
Lemma missing_pixel_data_raises_before_stack_witness :
  Forall (λ t : Dataset spec_float, ∃ n, InstanceNumber t = Some (Some n))
    [Demo.ct1; MoreDemo.no_pixels] ∧
  MoreDemo.no_pixels ∈ [Demo.ct1; MoreDemo.no_pixels] ∧
  pixel_array MoreDemo.no_pixels = None ∧
  assemble [Demo.ct1; MoreDemo.no_pixels]
  = Raise (AttributeError "PixelData") ∧
  display [Demo.ct1; MoreDemo.no_pixels] []
  = ([], Raise (AttributeError "PixelData")).
Proof.
  assert (Forall (λ t : Dataset spec_float,
                    ∃ n, InstanceNumber t = Some (Some n))
            [Demo.ct1; MoreDemo.no_pixels]) as Hnum
    by (repeat constructor; by eexists).
  assert (MoreDemo.no_pixels ∈ [Demo.ct1; MoreDemo.no_pixels]) as Hin
    by (right; left).
  split; [exact Hnum|]. split; [exact Hin|]. split; [reflexivity|].
  exact (missing_pixel_data_raises_before_stack
           [Demo.ct1; MoreDemo.no_pixels] MoreDemo.no_pixels [] Hnum Hin
           eq_refl).
Defined.

(** X5 on the slices 1, 2, 3 discovered in that order. *)
Lemma ascending_discovery_order_is_kept_witness :
  Forall2 (λ (s : Dataset spec_float) n, InstanceNumber s = Some (Some n))
    Demo.in_order [1; 2; 3]%Z ∧
  StronglySorted Z.le [1; 2; 3]%Z ∧
  sorted instance_key Demo.in_order = Ok Demo.in_order ∧
  (∀ volume, assemble Demo.in_order = Ok volume →
     Forall2 (λ s hu, hu_slice s = Ok hu) Demo.in_order volume).
Proof.
  assert (Forall2 (λ (s : Dataset spec_float) n, InstanceNumber s = Some (Some n))
            Demo.in_order [1; 2; 3]%Z) as Hnum by (repeat constructor).
  assert (StronglySorted Z.le [1; 2; 3]%Z) as Hasc
    by (repeat constructor; lia).
  split; [exact Hnum|]. split; [exact Hasc|].
  exact (ascending_discovery_order_is_kept Demo.in_order [1; 2; 3]%Z
           Hnum Hasc).
Defined.

(** X6 on the series: slice 2 is shown, one slice is below it. *)
Lemma displayed_slice_is_a_median_witness :
  assemble Demo.kept = Ok Demo.volume ∧
  ∃ s n img,
    s ∈ Demo.kept ∧ InstanceNumber s = Some (Some n) ∧ hu_slice s = Ok img ∧
    Demo.volume !! (length Demo.volume / 2)%nat = Some img ∧
    (length (List.filter (number_lt n) Demo.kept) ≤ length Demo.kept / 2
     < length (List.filter (number_le n) Demo.kept))%nat.
Proof.
  split; [vm_compute; reflexivity|].
  apply displayed_slice_is_a_median. vm_compute; reflexivity.
Defined.

(** X7 on the series. *)
Lemma histogram_ignores_slice_order_witness :
  assemble Demo.kept = Ok Demo.volume ∧
  (∃ arrays,
     Forall2 (λ s hu, hu_slice s = Ok hu) Demo.kept arrays ∧
     ravel Demo.volume ≡ₚ ravel arrays ∧
     ∀ bins lo hi, histogram (ravel Demo.volume) bins lo hi
                   = histogram (ravel arrays) bins lo hi) ∧
  (∀ discovered, discovered ≡ₚ Demo.kept →
     ∃ volume',
       assemble discovered = Ok volume' ∧
       ∀ bins lo hi, histogram (ravel volume') bins lo hi
                     = histogram (ravel Demo.volume) bins lo hi).
Proof.
  split; [vm_compute; reflexivity|].
  apply histogram_ignores_slice_order. vm_compute; reflexivity.
Defined.

(** X8 on slice 2 alone. *)
Lemma single_slice_is_shown_witness :
  InstanceNumber Demo.ct2 = Some (Some 2%Z) ∧
  pixel_array Demo.ct2 = Some (mk_ndarray (1, 2)%nat [20; 5000]%Z) ∧
  ∃ hu,
    hu_slice Demo.ct2 = Ok hu ∧
    assemble [Demo.ct2] = Ok [hu] ∧
    display [Demo.ct2] [] =
      ([] ++ [St_write "Displaying middle slice #0";
              St_pyplot (Imshow hu "gray" (-1000) 400);
              St_pyplot (Hist (histogram (data hu) 200 (-1000) 2000)
                           200 (-1000, 2000)%Z)],
       Ok tt).
Proof.
  split; [reflexivity|]. split; [reflexivity|].
  apply (single_slice_is_shown Demo.ct2 2%Z
           (mk_ndarray (1, 2)%nat [20; 5000]%Z)); reflexivity.
Defined.


(** X10 on an upload that is a DICOM file and no archive. *)
Lemma upload_that_is_no_archive_raises_witness :
  Demo.toy_members (Demo.Toy (Some Demo.ct1) None) = Raise BadZipFile ∧
  save_and_extract Demo.toy_members (Demo.Toy (Some Demo.ct1) None)
  = Raise BadZipFile ∧
  Demo.run_toy (Some (Demo.Toy (Some Demo.ct1) None)) =
    ([St_title "CT Slice Viewer + HU Histogram"], Raise BadZipFile).
Proof.
  split; [reflexivity|].
  apply (upload_that_is_no_archive_raises Demo.toy_dcmparse Demo.toy_members).
  reflexivity.
Defined.

(** X11 on the archive whose second .dcm file is not a DICOM file. *)
Lemma walked_files_can_be_read_witness :
  save_and_extract Demo.toy_members MoreDemo.broken = Ok MoreDemo.broken_tmp ∧
  (∀ p, p ∈ dcm_paths MoreDemo.broken_tmp →
        ∃ b, read_file p MoreDemo.broken_tmp = Ok b ∧
             dcmread Demo.toy_dcmparse MoreDemo.broken_tmp p
             = Demo.toy_dcmparse b) ∧
  (∀ e, find_ct_slices Demo.toy_dcmparse MoreDemo.broken_tmp = Raise e →
        ∃ p b,
          p ∈ dcm_paths MoreDemo.broken_tmp ∧
          read_file p MoreDemo.broken_tmp = Ok b ∧
          dcmread Demo.toy_dcmparse MoreDemo.broken_tmp p
          = Demo.toy_dcmparse b ∧
          (Demo.toy_dcmparse b = Raise e ∨
           ∃ ds, Demo.toy_dcmparse b = Ok ds ∧ Modality ds = None ∧
                 e = AttributeError "Modality")).
Proof.
  split; [vm_compute; reflexivity|].
  apply (walked_files_can_be_read Demo.toy_dcmparse Demo.toy_members
           MoreDemo.broken MoreDemo.broken_tmp).
  vm_compute; reflexivity.
Defined.

(** X12 on "IMG.Dcm" and "img.dCM". *)
Lemma tests_do_not_see_case_witness :
  PyStr.eq_nocase "IMG.Dcm" "img.dCM" ∧
  is_dcm "IMG.Dcm" = is_dcm "img.dCM" ∧ is_CT "IMG.Dcm" = is_CT "img.dCM".
Proof.
  assert (PyStr.eq_nocase "IMG.Dcm" "img.dCM") as Heq
    by (repeat split; reflexivity).
  split; [exact Heq|]. exact (tests_do_not_see_case _ _ Heq).
Defined.

(** X13 on an archive that writes "s.dcm" twice: the second is read. *)
Lemma last_member_is_read_as_extracted_witness :
  Demo.toy_members MoreDemo.twice
  = Ok ([MFile ["s.dcm"] (Demo.dcm Demo.mr)]
        ++ [MFile ["s.dcm"] (Demo.dcm Demo.ct1)]) ∧
  Forall (λ m : member Demo.toy, over_archive m = false)
    ([MFile ["s.dcm"] (Demo.dcm Demo.mr)]
     ++ [MFile ["s.dcm"] (Demo.dcm Demo.ct1)]) ∧
  save_and_extract Demo.toy_members MoreDemo.twice = Ok MoreDemo.twice_tmp ∧
  read_file zip_path MoreDemo.twice_tmp = Ok MoreDemo.twice ∧
  read_file ["s.dcm"] MoreDemo.twice_tmp = Ok (Demo.dcm Demo.ct1) ∧
  dcmread Demo.toy_dcmparse MoreDemo.twice_tmp ["s.dcm"]
  = Demo.toy_dcmparse (Demo.dcm Demo.ct1).
Proof.
  assert (Forall (λ m : member Demo.toy, over_archive m = false)
            ([MFile ["s.dcm"] (Demo.dcm Demo.mr)]
             ++ [MFile ["s.dcm"] (Demo.dcm Demo.ct1)])) as Hnot
    by (repeat constructor).
  split; [reflexivity|]. split; [exact Hnot|].
  split; [vm_compute; reflexivity|].
  apply (last_member_is_read_as_extracted Demo.toy_dcmparse Demo.toy_members
           MoreDemo.twice [MFile ["s.dcm"] (Demo.dcm Demo.mr)]);
    [reflexivity|exact Hnot|vm_compute; reflexivity].
Defined.
